(** * rastervision.v2.core.rv_config: a shallow embedding

    The module under study is [rastervision/v2/core/rv_config.py]: the
    list parser [load_conf_list] and the class [RVConfig] with its
    process-wide temporary-directory root.

    Conventions.
    - A Python [str] is a [string] holding its UTF-8 encoding; every
      function below is total on arbitrary byte strings.
    - Library code the module calls ([json], [os], [os.path], [tempfile],
      [pathlib], [logging], [everett.manager]) is not part of the module.
      Pure library functions are transcribed from their reference
      behaviour ([PyStr], [Json], [Everett]); the operating system is an
      interface ([Platform]) with one small executable instance ([Toy]).
    - Interpreter resource limits (recursion depth, integer digit limits)
      are not modelled. *)

From Stdlib Require Import ZArith NArith String Ascii List Bool Lia.
From stdpp Require Import base option list gmap strings.

Set Warnings "-register-all".

Local Open Scope string_scope.
Local Open Scope list_scope.

(* ===================================================================== *)
(** ** Python string primitives *)
(* ===================================================================== *)

Module PyStr.

Definition chars (s : string) : list ascii := list_ascii_of_string s.
Definition str (l : list ascii) : string := string_of_list_ascii l.
Definition code (c : ascii) : N := N_of_ascii c.

Definition between (lo hi x : N) : bool := (N.leb lo x && N.leb x hi)%bool.

(** The two quote characters. *)
Definition single_quote : ascii := "039"%char.
Definition double_quote : ascii := "034"%char.

(** [s.replace(a, b)] for one-character [a] and [b]. *)
Definition replace (a b : ascii) (s : string) : string :=
  str (map (fun c => if Ascii.eqb c a then b else c) (chars s)).

(** [s.split(sep)] for a one-character separator: never the empty list. *)
Fixpoint split_chars (sep : ascii) (cur : list ascii) (l : list ascii)
  : list (list ascii) :=
  match l with
  | [] => [rev cur]
  | c :: r =>
      if Ascii.eqb c sep then rev cur :: split_chars sep [] r
      else split_chars sep (c :: cur) r
  end.

Definition split (sep : ascii) (s : string) : list string :=
  map str (split_chars sep [] (chars s)).

(** [sep.join(l)]. *)
Fixpoint join (sep : string) (l : list string) : string :=
  match l with
  | [] => ""
  | [x] => x
  | x :: r => x +:+ sep +:+ join sep r
  end.

(** Width in bytes of the white-space character at the head of [l], 0 when
    the head is not white space.  The set is the one of [str.isspace]:
    U+0009..000D, U+001C..0020, U+0085, U+00A0, U+1680, U+2000..200A,
    U+2028, U+2029, U+202F, U+205F, U+3000. *)
Definition space_width (l : list N) : nat :=
  match l with
  | [] => 0
  | a :: rest =>
      if (between 9 13 a || between 28 32 a)%bool then 1
      else match a, rest with
           | 194%N, b :: _ => if (N.eqb b 133 || N.eqb b 160)%bool then 2 else 0
           | 225%N, 154%N :: 128%N :: _ => 3
           | 226%N, 128%N :: c :: _ =>
               if (between 128 138 c || N.eqb c 168 || N.eqb c 169
                   || N.eqb c 175)%bool then 3 else 0
           | 226%N, 129%N :: 159%N :: _ => 3
           | 227%N, 128%N :: 128%N :: _ => 3
           | _, _ => 0
           end
  end.

(** The same test read from the end of the string (on the reversed bytes). *)
Definition space_width_rev (l : list N) : nat :=
  match l with
  | [] => 0
  | a :: rest =>
      if (between 9 13 a || between 28 32 a)%bool then 1
      else match rest with
           | 194%N :: _ => if (N.eqb a 133 || N.eqb a 160)%bool then 2 else 0
           | 154%N :: 225%N :: _ => if N.eqb a 128 then 3 else 0
           | 128%N :: 226%N :: _ =>
               if (between 128 138 a || N.eqb a 168 || N.eqb a 169
                   || N.eqb a 175)%bool then 3 else 0
           | 129%N :: 226%N :: _ => if N.eqb a 159 then 3 else 0
           | 128%N :: 227%N :: _ => if N.eqb a 128 then 3 else 0
           | _ => 0
           end
  end.

(** Drop leading white space; [skip] counts bytes of a multi-byte white-space
    character still to be dropped. *)
Fixpoint drop_space (width : list N -> nat) (skip : nat) (l : list N)
  : list N :=
  match l with
  | [] => []
  | _ :: r =>
      match skip with
      | S k => drop_space width k r
      | O => match width l with
             | O => l
             | S k => drop_space width k r
             end
      end
  end.

Definition lstrip_codes (l : list N) : list N := drop_space space_width 0 l.
Definition rstrip_codes (l : list N) : list N :=
  rev (drop_space space_width_rev 0 (rev l)).

(** [s.strip()]. *)
Definition strip (s : string) : string :=
  str (map ascii_of_N (rstrip_codes (lstrip_codes (map code (chars s))))).

(** [s.startswith(p)] and [s.endswith(p)]. *)
Fixpoint starts_with (p l : list ascii) : bool :=
  match p, l with
  | [], _ => true
  | a :: p', b :: l' => (Ascii.eqb a b && starts_with p' l')%bool
  | _ :: _, [] => false
  end.

Definition startswith (s p : string) : bool := starts_with (chars p) (chars s).
Definition endswith (s p : string) : bool :=
  starts_with (rev (chars p)) (rev (chars s)).

(** Truthiness of a [str]. *)
Definition truthy (s : string) : bool := negb (String.eqb s "").

End PyStr.

(* ===================================================================== *)
(** ** Python values and [json.loads] *)
(* ===================================================================== *)

(** The Python objects the module handles as data: what [json.loads] can
    return, and lists of strings.  A float keeps its lexeme. *)
Inductive value : Type :=
| PyNone
| PyBool (b : bool)
| PyInt (z : Z)
| PyFloat (lexeme : string)
| PyStr (s : string)
| PyList (items : list value)
| PyDict (pairs : list (string * value)).

Module Json.
Import PyStr.

Inductive token : Type :=
| TLBracket | TRBracket | TLBrace | TRBrace | TComma | TColon
| TScalar (v : value).

(** JSON white space: [ \t\n\r]. *)
Definition is_ws (c : ascii) : bool :=
  let n := code c in (N.eqb n 32 || N.eqb n 9 || N.eqb n 10 || N.eqb n 13)%bool.

Definition is_digit (c : ascii) : bool := between 48 57 (code c).

Definition hex_val (c : ascii) : option N :=
  let n := code c in
  if between 48 57 n then Some (n - 48)%N
  else if between 97 102 n then Some (n - 87)%N
  else if between 65 70 n then Some (n - 55)%N
  else None.

Definition hex4 (a b c d : ascii) : option N :=
  match hex_val a, hex_val b, hex_val c, hex_val d with
  | Some x, Some y, Some z, Some w => Some (((x * 16 + y) * 16 + z) * 16 + w)%N
  | _, _, _, _ => None
  end.

(** UTF-8 encoding of one code point ([chr(uni)] in the string model). *)
Definition utf8 (u : N) : list ascii :=
  let b (n : N) := ascii_of_N n in
  if N.ltb u 128 then [b u]
  else if N.ltb u 2048 then [b (192 + u / 64); b (128 + u mod 64)]%N
  else if N.ltb u 65536 then
    [b (224 + u / 4096); b (128 + (u / 64) mod 64); b (128 + u mod 64)]%N
  else
    [b (240 + u / 262144); b (128 + (u / 4096) mod 64);
     b (128 + (u / 64) mod 64); b (128 + u mod 64)]%N.

(** The one-character escapes of a JSON string. *)
Definition backslash (e : ascii) : option ascii :=
  let n := code e in
  if N.eqb n 34 then Some e                       (* quote *)
  else if N.eqb n 92 then Some e                  (* backslash *)
  else if N.eqb n 47 then Some e                  (* slash *)
  else if N.eqb n 98 then Some (ascii_of_N 8)     (* b *)
  else if N.eqb n 102 then Some (ascii_of_N 12)   (* f *)
  else if N.eqb n 110 then Some (ascii_of_N 10)   (* n *)
  else if N.eqb n 114 then Some (ascii_of_N 13)   (* r *)
  else if N.eqb n 116 then Some (ascii_of_N 9)    (* t *)
  else None.

Definition emit (cs : list ascii) (k : nat) (r : option (list ascii * nat))
  : option (list ascii * nat) :=
  match r with
  | Some (content, n) => Some (cs ++ content, k + n)
  | None => None
  end.

(** [scanstring]: the text after an opening quote; returns the decoded
    content and the number of bytes read, closing quote included.  Strict
    mode: a control character inside the string is an error. *)
Fixpoint scanstring (l : list ascii) : option (list ascii * nat) :=
  match l with
  | [] => None
  | c :: r =>
      let n := code c in
      if N.eqb n 34 then Some ([], 1)
      else if N.eqb n 92 then
        match r with
        | [] => None
        | e :: r1 =>
            if N.eqb (code e) 117 then
              match r1 with
              | h1 :: h2 :: h3 :: h4 :: r2 =>
                  match hex4 h1 h2 h3 h4 with
                  | None => None
                  | Some uni =>
                      if between 55296 56319 uni then
                        match r2 with
                        | b1 :: u1 :: g1 :: g2 :: g3 :: g4 :: r3 =>
                            if (N.eqb (code b1) 92 && N.eqb (code u1) 117)%bool
                            then
                              match hex4 g1 g2 g3 g4 with
                              | None => None
                              | Some uni2 =>
                                  if between 56320 57343 uni2 then
                                    emit (utf8 (65536 + (uni - 55296) * 1024
                                                + (uni2 - 56320))%N)
                                         12 (scanstring r3)
                                  else emit (utf8 uni) 6 (scanstring r2)
                              end
                            else emit (utf8 uni) 6 (scanstring r2)
                        | _ => emit (utf8 uni) 6 (scanstring r2)
                        end
                      else emit (utf8 uni) 6 (scanstring r2)
                  end
              | _ => None
              end
            else
              match backslash e with
              | Some ch => emit [ch] 2 (scanstring r1)
              | None => None
              end
        end
      else if N.ltb n 32 then None
      else emit [c] 1 (scanstring r)
  end.

Fixpoint span_digits (l : list ascii) : list ascii * list ascii :=
  match l with
  | c :: r =>
      if is_digit c then let '(ds, rest) := span_digits r in (c :: ds, rest)
      else ([], l)
  | [] => ([], [])
  end.

Definition digits_value (ds : list ascii) : Z :=
  fold_left (fun acc c => (acc * 10 + Z.of_N (code c - 48))%Z) ds 0%Z.

(** The number pattern of the scanner matched at the head of [l]: an optional
    minus sign, then a single 0 or a digit string without leading 0, then an
    optional fraction (a dot and one or more digits), then an optional
    exponent (e or E, an optional sign, one or more digits).  Returns the
    value and the number of bytes matched. *)
Definition scan_number (l : list ascii) : option (value * nat) :=
  let '(neg, l1) :=
    match l with
    | c :: r => if N.eqb (code c) 45 then (true, r) else (false, l)
    | [] => (false, l)
    end in
  let int_part :=
    match l1 with
    | c :: r =>
        if N.eqb (code c) 48 then Some ([c], r)
        else if is_digit c then
          let '(ds, rest) := span_digits r in Some (c :: ds, rest)
        else None
    | [] => None
    end in
  match int_part with
  | None => None
  | Some (ds, l2) =>
      let '(frac, l3) :=
        match l2 with
        | dot :: d :: _ =>
            if (N.eqb (code dot) 46 && is_digit d)%bool then
              let '(fs, rest) := span_digits (tl l2) in (dot :: fs, rest)
            else ([], l2)
        | _ => ([], l2)
        end in
      let exp :=
        match l3 with
        | e :: r =>
            if (N.eqb (code e) 101 || N.eqb (code e) 69)%bool then
              let '(sign, r1) :=
                match r with
                | s :: r' =>
                    if (N.eqb (code s) 43 || N.eqb (code s) 45)%bool
                    then ([s], r') else ([], r)
                | [] => ([], r)
                end in
              match span_digits r1 with
              | ([], _) => []
              | (es, _) => e :: sign ++ es
              end
            else []
        | [] => []
        end in
      let sign := if neg then ["-"%char] else [] in
      let lexeme := sign ++ ds ++ frac ++ exp in
      match frac, exp with
      | [], [] =>
          Some (PyInt (if neg then - digits_value ds else digits_value ds)%Z,
                length lexeme)
      | _, _ => Some (PyFloat (str lexeme), length lexeme)
      end
  end.

(** The token starting at a non-space position, with the number of bytes it
    occupies. *)
Definition token_at (l : list ascii) : option (token * nat) :=
  match l with
  | [] => None
  | c :: r =>
      let n := code c in
      if N.eqb n 91 then Some (TLBracket, 1)
      else if N.eqb n 93 then Some (TRBracket, 1)
      else if N.eqb n 123 then Some (TLBrace, 1)
      else if N.eqb n 125 then Some (TRBrace, 1)
      else if N.eqb n 44 then Some (TComma, 1)
      else if N.eqb n 58 then Some (TColon, 1)
      else if N.eqb n 34 then
        match scanstring r with
        | Some (content, k) => Some (TScalar (PyStr (str content)), S k)
        | None => None
        end
      else if starts_with (chars "null") l then Some (TScalar PyNone, 4)
      else if starts_with (chars "true") l then Some (TScalar (PyBool true), 4)
      else if starts_with (chars "false") l then Some (TScalar (PyBool false), 5)
      else match scan_number l with
           | Some (v, k) => Some (TScalar v, k)
           | None =>
               if starts_with (chars "NaN") l
               then Some (TScalar (PyFloat "NaN"), 3)
               else if starts_with (chars "Infinity") l
               then Some (TScalar (PyFloat "Infinity"), 8)
               else if starts_with (chars "-Infinity") l
               then Some (TScalar (PyFloat "-Infinity"), 9)
               else None
           end
  end.

(** Tokens of the whole text; [skip] counts bytes of the current token still
    to be passed over. *)
Fixpoint lex (skip : nat) (l : list ascii) : option (list token) :=
  match l with
  | [] => Some []
  | c :: r =>
      match skip with
      | S k => lex k r
      | O =>
          if is_ws c then lex 0 r
          else match token_at l with
               | Some (t, S k) =>
                   match lex k r with
                   | Some ts => Some (t :: ts)
                   | None => None
                   end
               | _ => None
               end
      end
  end.

(** [dict(pairs)]: a later pair with the same key replaces the value and
    keeps the position of the first. *)
Fixpoint dict_set (k : string) (v : value) (d : list (string * value))
  : list (string * value) :=
  match d with
  | [] => [(k, v)]
  | (k', v') :: r =>
      if String.eqb k k' then (k, v) :: r else (k', v') :: dict_set k v r
  end.

Definition dict_of_pairs (ps : list (string * value)) : list (string * value) :=
  fold_left (fun d kv => dict_set (fst kv) (snd kv) d) ps [].

(** The decoder as a pushdown machine over the tokens. *)
Inductive frame : Type :=
| FList (acc : list value)
| FDict (acc : list (string * value)) (key : option string).

Inductive phase : Type :=
| PValue (may_close : bool)
| PAfter
| PKey (may_close : bool)
| PColon
| PDone (v : value).

Definition push_value (v : value) (st : list frame)
  : option (list frame * phase) :=
  match st with
  | [] => Some ([], PDone v)
  | FList acc :: st' => Some (FList (v :: acc) :: st', PAfter)
  | FDict acc (Some k) :: st' => Some (FDict ((k, v) :: acc) None :: st', PAfter)
  | FDict _ None :: _ => None
  end.

Definition step (s : list frame * phase) (t : token)
  : option (list frame * phase) :=
  let '(st, ph) := s in
  match ph with
  | PValue may_close =>
      match t with
      | TScalar v => push_value v st
      | TLBracket => Some (FList [] :: st, PValue true)
      | TLBrace => Some (FDict [] None :: st, PKey true)
      | TRBracket =>
          match may_close, st with
          | true, FList [] :: st' => push_value (PyList []) st'
          | _, _ => None
          end
      | _ => None
      end
  | PAfter =>
      match t, st with
      | TComma, FList _ :: _ => Some (st, PValue false)
      | TComma, FDict _ None :: _ => Some (st, PKey false)
      | TRBracket, FList acc :: st' => push_value (PyList (rev acc)) st'
      | TRBrace, FDict acc None :: st' =>
          push_value (PyDict (dict_of_pairs (rev acc))) st'
      | _, _ => None
      end
  | PKey may_close =>
      match t, st with
      | TScalar (PyStr k), FDict acc None :: st' =>
          Some (FDict acc (Some k) :: st', PColon)
      | TRBrace, FDict [] None :: st' =>
          if may_close then push_value (PyDict []) st' else None
      | _, _ => None
      end
  | PColon =>
      match t with
      | TColon => Some (st, PValue false)
      | _ => None
      end
  | PDone _ => None
  end.

Fixpoint run (s : list frame * phase) (ts : list token)
  : option (list frame * phase) :=
  match ts with
  | [] => Some s
  | t :: r => match step s t with
              | Some s' => run s' r
              | None => None
              end
  end.

(** [json.loads(s)]: [None] stands for [json.JSONDecodeError]. *)
Definition loads (s : string) : option value :=
  match lex 0 (chars s) with
  | None => None
  | Some ts =>
      match run ([], PValue false) ts with
      | Some ([], PDone v) => Some v
      | _ => None
      end
  end.

End Json.

(* ===================================================================== *)
(** ** [load_conf_list] *)
(* ===================================================================== *)

(** [load_conf_list(s)]: the [try] returns whatever [json.loads] decodes;
    the handler of [JSONDecodeError] splits the original string. *)
Definition load_conf_list (s : string) : value :=
  match Json.loads (PyStr.replace PyStr.single_quote PyStr.double_quote s) with
  | Some v => v
  | None => PyList (map (fun x => PyStr (PyStr.strip x)) (PyStr.split "," s))
  end.


(* ===================================================================== *)
(** ** Exceptions, the platform, the process state *)
(* ===================================================================== *)

(** The exception classes that occur.  Every one is a subclass of
    [Exception], so [except Exception] catches them all. *)
Inductive exn : Type :=
| Exception (msg : string)           (* [raise Exception(msg)] in the module *)
| OSError (msg : string)             (* raised by os, pathlib, tempfile *)
| TypeError (msg : string)           (* a [None] where a path is needed *)
| AttributeError (name : string)     (* an attribute read before it is set *)
| ConfigObjError (msg : string)      (* an INI file that does not parse *)
| ConfigurationError (msg : string). (* everett: a key without a value *)

Inductive result (A : Type) : Type :=
| Return (a : A)
| Raise (e : exn).
Arguments Return {A} a.
Arguments Raise {A} e.

(** Levels of the [logging] module. *)
Inductive level : Type := NOTSET | DEBUG | INFO | WARN.

(** What the module asks of the operating system and of the libraries that
    are not transcribed here.  An operation that may fail returns the error
    text together with the world it leaves behind. *)
Class Platform : Type := {
  world : Type;
  (** [os.path.exists], [os.path.isdir], [os.path.isfile] *)
  path_exists : world -> string -> bool;
  path_isdir : world -> string -> bool;
  path_isfile : world -> string -> bool;
  (** [os.makedirs(p, exist_ok=True)] *)
  makedirs : string -> world -> option string * world;
  (** [Path.touch(Path(p))] *)
  touch : string -> world -> option string * world;
  (** [tempfile.TemporaryDirectory().name] *)
  temporary_directory_name : world -> (string + string) * world;
  (** [os.getcwd()], [os.path.expanduser], [os.path.abspath] *)
  getcwd : world -> string;
  expanduser : gmap string string -> world -> string -> string;
  abspath : world -> string -> string;
  (** [ConfigIniEnv.parse_ini_file(path)]: the flattened sections of the
      file, keys upper-cased *)
  parse_ini_file : world -> string -> gmap string string + string;
  (** [tempfile.TemporaryDirectory(dir=d)]: the name of the directory made *)
  mkdtemp : string -> world -> (string + string) * world;
  (** [str.upper] *)
  upper : string -> string;
  (** The empty path names nothing. *)
  path_exists_empty : forall w, path_exists w "" = false;
  (** A directory exists. *)
  path_isdir_exists : forall w p, path_isdir w p = true -> path_exists w p = true;
  (** When [os.makedirs] returns, the directory is there. *)
  makedirs_isdir :
    forall p w w', makedirs p w = (None, w') -> path_isdir w' p = true
}.

(** [os.path.join(a, b)] of [posixpath]. *)
Definition path_join (a b : string) : string :=
  if PyStr.startswith b "/" then b
  else if (negb (PyStr.truthy a) || PyStr.endswith a "/")%bool then a +:+ b
  else a +:+ "/" +:+ b.

Module Verbosity.
(** Modelled from the spec: the constants of the class [Verbosity] of
    [rastervision.v2.core.verbosity], which is not among the sources; the
    spec calls it an ordered enumeration with the levels NORMAL and
    VERBOSE.  Only these two constants are used; nothing is assumed about
    their values. *)
Record t : Type := { NORMAL : Z; VERBOSE : Z }.
End Verbosity.

Section RVConfig.

Context {P : Platform}.
Variable V : Verbosity.t.

(** *** everett.manager: the configuration sources *)

Inductive config_env : Type :=
| ConfigDictEnv (cfg : gmap string string)
| ConfigOSEnv
| ConfigIniEnv (path : option string) (cfg : gmap string string).

(** An [RVConfig] object: its three attributes, unset before [reset]. *)
Record RVConfig : Type := {
  verbosity : option Z;
  rv_home : option string;
  config : option (list config_env)
}.

(** The process: file system, [os.environ], the class attribute
    [RVConfig.tmp_dir], the level of the logger [rastervision], the calls
    made to this module's logger, and the one [RVConfig] object. *)
Record state : Type := {
  fs : world;
  environ : gmap string string;
  tmp_dir : option string;
  root_log_level : level;
  records : list (level * string);
  self : RVConfig
}.

Definition with_fs (w : world) (st : state) : state :=
  {| fs := w; environ := environ st; tmp_dir := tmp_dir st;
     root_log_level := root_log_level st; records := records st;
     self := self st |}.
Definition with_tmp_dir (d : option string) (st : state) : state :=
  {| fs := fs st; environ := environ st; tmp_dir := d;
     root_log_level := root_log_level st; records := records st;
     self := self st |}.
Definition with_root_log_level (l : level) (st : state) : state :=
  {| fs := fs st; environ := environ st; tmp_dir := tmp_dir st;
     root_log_level := l; records := records st; self := self st |}.
Definition with_record (r : level * string) (st : state) : state :=
  {| fs := fs st; environ := environ st; tmp_dir := tmp_dir st;
     root_log_level := root_log_level st; records := records st ++ [r];
     self := self st |}.
Definition with_self (o : RVConfig) (st : state) : state :=
  {| fs := fs st; environ := environ st; tmp_dir := tmp_dir st;
     root_log_level := root_log_level st; records := records st;
     self := o |}.

(** *** The monad of stateful code that may raise *)

Definition M (A : Type) : Type := state -> result A * state.

Definition ret {A} (a : A) : M A := fun st => (Return a, st).
Definition raise {A} (e : exn) : M A := fun st => (Raise e, st).
Definition bind {A B} (m : M A) (k : A -> M B) : M B :=
  fun st => match m st with
            | (Return a, st') => k a st'
            | (Raise e, st') => (Raise e, st')
            end.
Definition get : M state := fun st => (Return st, st).
Definition modify (f : state -> state) : M unit := fun st => (Return tt, f st).

Notation "x <- m ;; k" := (bind m (fun x => k))
  (at level 100, m at level 99, right associativity).
Notation "m ;; k" := (bind m (fun _ => k))
  (at level 100, right associativity).

Definition when (b : bool) (m : M unit) : M unit := if b then m else ret tt.

(** [try: body / except Exception as e: handler / finally: final]. *)
Definition try_except_finally (body : M unit) (handler : exn -> M unit)
  (final : M unit) : M unit :=
  fun st =>
    let '(r, st1) :=
      match body st with
      | (Return tt, st') => (Return tt, st')
      | (Raise e, st') => handler e st'
      end in
    match final st1 with
    | (Return tt, st2) => (r, st2)
    | (Raise e, st2) => (Raise e, st2)
    end.

(** A file-system operation lifted to the monad. *)
Definition os_call (op : world -> option string * world) : M unit :=
  fun st => match op (fs st) with
            | (None, w) => (Return tt, with_fs w st)
            | (Some msg, w) => (Raise (OSError msg), with_fs w st)
            end.

Definition log (l : level) (msg : string) : M unit :=
  modify (with_record (l, msg)).

Definition name_call (op : world -> (string + string) * world) : M string :=
  fun st => match op (fs st) with
            | (inl name, w) => (Return name, with_fs w st)
            | (inr msg, w) => (Raise (OSError msg), with_fs w st)
            end.

(** Truthiness of [os.environ.get(k)]: set and not empty. *)
Definition truthy_opt (o : option string) : bool :=
  match o with
  | Some s => PyStr.truthy s
  | None => false
  end.

(** [any(l)] for a list of strings. *)
Definition any (l : list string) : bool := existsb PyStr.truthy l.

(** *** everett.manager *)

(** [generate_uppercase_key(key, namespace)]. *)
Definition generate_uppercase_key (key : string)
  (namespace : option (list string)) : string :=
  match namespace with
  | Some ((_ :: _) as ns) =>
      upper (PyStr.join "_" (List.filter PyStr.truthy ns ++ [key]))
  | _ => upper key
  end.

(** [ConfigDictEnv(cfg)]: the keys are upper-cased, a later item wins. *)
Definition upper_keys (cfg : list (string * string)) : gmap string string :=
  fold_left (fun m kv => <[upper (fst kv) := snd kv]> m) cfg ∅.

Definition dict_env (cfg : list (string * string)) : config_env :=
  ConfigDictEnv (upper_keys cfg).

(** [ConfigIniEnv(possible_paths)]: the first path that names a file is
    parsed, the others are not looked at. *)
Definition ini_path (env : gmap string string) (w : world) (path : string)
  : string :=
  abspath w (expanduser env w (PyStr.strip path)).

Fixpoint ini_env (env : gmap string string) (w : world)
  (possible_paths : list string) : result config_env :=
  match possible_paths with
  | [] => Return (ConfigIniEnv None ∅)
  | path :: rest =>
      if negb (PyStr.truthy path) then ini_env env w rest
      else
        let path' := ini_path env w path in
        if (PyStr.truthy path' && path_isfile w path')%bool then
          match parse_ini_file w path' with
          | inl cfg => Return (ConfigIniEnv (Some path') cfg)
          | inr msg => Raise (ConfigObjError msg)
          end
        else ini_env env w rest
  end.

(** [env.get(key, namespace)]; [None] is everett's [NO_VALUE]. *)
Definition env_get (e : config_env) (env : gmap string string)
  (key : string) (namespace : option (list string)) : option string :=
  match e with
  | ConfigDictEnv cfg => cfg !! generate_uppercase_key key namespace
  | ConfigOSEnv => env !! generate_uppercase_key key namespace
  | ConfigIniEnv None _ => None
  | ConfigIniEnv (Some _) cfg =>
      let namespace :=
        match namespace with
        | Some (_ :: _) => namespace
        | _ => Some ["main"]
        end in
      cfg !! generate_uppercase_key key namespace
  end.

(** The loop over the sources: the first one with a value wins. *)
Fixpoint first_value (envs : list config_env) (env : gmap string string)
  (key : string) (namespace : option (list string)) : option string :=
  match envs with
  | [] => None
  | e :: rest =>
      match env_get e env key namespace with
      | Some v => Some v
      | None => first_value rest env key namespace
      end
  end.

(** [ConfigManager.__call__(key, namespace, default)] with the parser [str]
    and [raise_error=True], as the module calls it.  A key that starts
    with [root:] is looked up without the namespace. *)
Definition anchored (key : string) (namespace : option (list string))
  : string * option (list string) :=
  if PyStr.startswith key "root:"
  then (String.substring 5 (String.length key - 5) key, None)
  else (key, namespace).

Definition manager_call (envs : list config_env) (key : string)
  (namespace : option (list string)) (default : option string) : M string :=
  st <- get ;;
  let '(possible_key, use_namespace) := anchored key namespace in
  match first_value envs (environ st) possible_key use_namespace with
  | Some v => ret v
  | None =>
      match default with
      | Some d => ret d
      | None => raise (ConfigurationError
                         (key +:+ " requires a value parseable by str"))
      end
  end.

(** [NamespacedConfig(config, namespace)], what [with_namespace] returns. *)
Record NamespacedConfig : Type := {
  nc_config : list config_env;
  nc_namespace : string
}.

Definition namespaced_call (c : NamespacedConfig) (key : string)
  (default : option string) : M string :=
  manager_call (nc_config c) key (Some [nc_namespace c]) default.

(** Truthiness of a [NamespacedConfig]: the class defines neither
    [__bool__] nor [__len__]. *)
Definition object_truthy (c : NamespacedConfig) : bool := true.

(** *** class RVConfig *)

Definition DEFAULT_PROFILE : string := "default".
Definition DEFAULT_DIR : string := "/opt/data/tmp/".

(** The first part of [RVConfig.set_tmp_dir(tmp_dir=None)]: the value of
    its local variable [explicit_tmp_dir], the path that the second part
    validates.  The filter keeps whatever is not [None]. *)
Definition explicit_tmp_dir (arg : option string) : M string :=
  st <- get ;;
  let tmp_dir_array := [arg] in
  let env_array :=
    map (fun k => environ st !! k)
        (List.filter (fun k => bool_decide (is_Some (environ st !! k)))
                     ["TMPDIR"; "TEMP"; "TMP"]) in
  let current_array := [tmp_dir st] in
  let it := omap id (tmp_dir_array ++ env_array ++ current_array) in
  match it with
  | d :: _ => ret d
  | [] => name_call temporary_directory_name
  end.

(** [RVConfig.set_tmp_dir(tmp_dir=None)]. *)
Definition set_tmp_dir (arg : option string) : M unit :=
  dir <- explicit_tmp_dir arg ;;
  try_except_finally
    ( st <- get ;;
      when (negb (path_exists (fs st) dir))
           (os_call (makedirs dir)) ;;
      st <- get ;;
      when (negb (path_isdir (fs st) dir))
           (raise (Exception (dir +:+ " is not a directory."))) ;;
      os_call (touch (path_join dir ".can_touch")) ;;
      modify (with_tmp_dir (Some dir)) )
    ( fun _ =>
      log WARN ("Root temporary directory cannot be used: "
                +:+ dir +:+ ". Using root: " +:+ DEFAULT_DIR) ;;
      modify (with_tmp_dir (Some DEFAULT_DIR)) )
    ( st <- get ;;
      match tmp_dir st with
      | Some d =>
          os_call (makedirs d) ;;
          log DEBUG ("Temporary directory is: " +:+ d)
      | None => raise (TypeError "expected str, bytes or os.PathLike object")
      end ).

(** [RVConfig.get_tmp_dir_root()]. *)
Definition get_tmp_dir_root : M (option string) :=
  st <- get ;;
  match tmp_dir st with
  | None => set_tmp_dir None
  | Some _ => ret tt
  end ;;
  st <- get ;;
  ret (tmp_dir st).

(** [RVConfig.get_tmp_dir()]: the name of the scoped directory. *)
Definition get_tmp_dir : M string :=
  st <- get ;;
  match tmp_dir st with
  | None => set_tmp_dir None
  | Some _ => ret tt
  end ;;
  st <- get ;;
  match tmp_dir st with
  | Some d => name_call (mkdtemp d)
  | None => raise (TypeError "expected str, bytes or os.PathLike object")
  end.

(** [RVConfig._discover_config_file_locations(profile)]. *)
Definition _discover_config_file_locations (profile : string)
  : M (list string) :=
  st <- get ;;
  let result := [] in
  let env_specified_path := environ st !! "RV_CONFIG" in
  let result :=
    if truthy_opt env_specified_path
    then result ++ [default "" env_specified_path] else result in
  let env_specified_dir_path := environ st !! "RV_CONFIG_DIR" in
  result <-
    (if truthy_opt env_specified_dir_path
     then ret (result
               ++ [path_join (default "" env_specified_dir_path) profile])
     else match rv_home (self st) with
          | Some home => ret (result ++ [path_join home profile])
          | None => raise (AttributeError "rv_home")
          end) ;;
  let result := result ++ [path_join (getcwd (fs st)) ".rastervision"] in
  let results_that_exist := List.filter (path_exists (fs st)) result in
  if (negb (any results_that_exist)
      && negb (String.eqb profile DEFAULT_PROFILE))%bool
  then raise (Exception ("Configuration Profile " +:+ profile
                         +:+ " not found. "
                         +:+ "Checked: " +:+ PyStr.join ", " result))
  else ret results_that_exist.

(** The level [reset] gives to the logger [rastervision]. *)
Definition level_of_verbosity (v : Z) : level :=
  if (v >=? Verbosity.VERBOSE V)%Z then DEBUG
  else if (v >=? Verbosity.NORMAL V)%Z then INFO
  else WARN.

(** The profile [reset] resolves. *)
Definition resolve_profile (profile : option string)
  (env : gmap string string) : string :=
  match profile with
  | Some p => p
  | None =>
      if truthy_opt (env !! "RV_PROFILE") then default "" (env !! "RV_PROFILE")
      else DEFAULT_PROFILE
  end.

(** [RVConfig.reset(profile, rv_home, config_overrides, tmp_dir, verbosity)];
    [__init__] only calls it. *)
Definition reset (profile : option string) (rv_home_arg : option string)
  (config_overrides : option (list (string * string)))
  (tmp_dir_arg : option string) (verbosity_arg : Z) : M unit :=
  modify (fun st =>
    with_self {| verbosity := Some verbosity_arg;
                 rv_home := rv_home (self st);
                 config := config (self st) |} st) ;;
  modify (with_root_log_level (level_of_verbosity verbosity_arg)) ;;
  match tmp_dir_arg with
  | Some d => set_tmp_dir (Some d)
  | None => ret tt
  end ;;
  st <- get ;;
  let profile := resolve_profile profile (environ st) in
  let config_overrides := default [] config_overrides in
  let rv_home_val :=
    match rv_home_arg with
    | Some h => h
    | None =>
        let home := expanduser (environ st) (fs st) "~" in
        path_join home ".rastervision"
    end in
  modify (fun st =>
    with_self {| verbosity := verbosity (self st);
                 rv_home := Some rv_home_val;
                 config := config (self st) |} st) ;;
  config_file_locations <- _discover_config_file_locations profile ;;
  st <- get ;;
  match ini_env (environ st) (fs st) config_file_locations with
  | Raise e => raise e
  | Return ini =>
      modify (fun st =>
        with_self {| verbosity := verbosity (self st);
                     rv_home := rv_home (self st);
                     config := Some [dict_env config_overrides;
                                     ConfigOSEnv; ini] |} st)
  end.

(** [RVConfig.__init__], with the same parameters. *)
Definition __init__ := reset.

(** [RVConfig.get_subconfig(namespace)]. *)
Definition get_subconfig (namespace : string) : M NamespacedConfig :=
  st <- get ;;
  match config (self st) with
  | Some envs => ret {| nc_config := envs; nc_namespace := namespace |}
  | None => raise (AttributeError "config")
  end.

(** [RVConfig.get_verbosity()]. *)
Definition get_verbosity : M Z :=
  st <- get ;;
  match verbosity (self st) with
  | Some v => ret v
  | None => raise (AttributeError "verbosity")
  end.

(** The inner loop of [get_config_dict]. *)
Fixpoint config_dict_keys (namespace : string) (keys : list string)
  (config_dict : gmap string string) : M (gmap string string) :=
  match keys with
  | [] => ret config_dict
  | key :: rest =>
      sub <- get_subconfig namespace ;;
      v <- namespaced_call sub key None ;;
      config_dict_keys namespace rest
        (<[namespace +:+ "_" +:+ key := v]> config_dict)
  end.

(** The outer loop of [get_config_dict]. *)
Fixpoint config_dict_items (items : list (string * list string))
  (config_dict : gmap string string) : M (gmap string string) :=
  match items with
  | [] => ret config_dict
  | (namespace, keys) :: rest =>
      d <- config_dict_keys namespace keys config_dict ;;
      config_dict_items rest d
  end.

(** [RVConfig.get_config_dict(rv_config_schema)]; the schema is the list of
    its items. *)
Definition get_config_dict (rv_config_schema : list (string * list string))
  : M (gmap string string) :=
  config_dict_items rv_config_schema ∅.

(** [RVConfig.get_plugin_modules()]. *)
Definition get_plugin_modules : M value :=
  plugin_config <- get_subconfig "PLUGINS" ;;
  if object_truthy plugin_config then
    plugin_modules <- namespaced_call plugin_config "modules" (Some "") ;;
    ret (if negb (String.eqb plugin_modules "")
         then load_conf_list plugin_modules
         else PyList [])
  else ret (PyList []).

End RVConfig.

(* ===================================================================== *)
(** ** A small executable platform *)
(* ===================================================================== *)

(** A flat file system, enough to run the module on concrete inputs.  A
    path is a directory, a file holding the flattened content of an INI
    file, or [Forbidden]: a name under a read-only parent, which does not
    exist and cannot be created. *)
Module Toy.

Inductive node : Type :=
| Dir
| File (ini : list (string * string))
| Forbidden.

Definition exists_ (w : gmap string node) (p : string) : bool :=
  match w !! p with
  | Some Dir | Some (File _) => PyStr.truthy p
  | _ => false
  end.

Definition isdir (w : gmap string node) (p : string) : bool :=
  match w !! p with
  | Some Dir => PyStr.truthy p
  | _ => false
  end.

Definition isfile (w : gmap string node) (p : string) : bool :=
  match w !! p with
  | Some (File _) => PyStr.truthy p
  | _ => false
  end.

Definition make_dirs (p : string) (w : gmap string node)
  : option string * gmap string node :=
  if negb (PyStr.truthy p) then (Some "FileNotFoundError", w)
  else match w !! p with
       | Some Dir => (None, w)
       | Some (File _) => (Some "FileExistsError", w)
       | Some Forbidden => (Some "PermissionError", w)
       | None => (None, <[p := Dir]> w)
       end.

Definition touch_file (p : string) (w : gmap string node)
  : option string * gmap string node :=
  match w !! p with
  | Some Forbidden => (Some "PermissionError", w)
  | Some _ => (None, w)
  | None => (None, <[p := File []]> w)
  end.

Definition fresh_name : string := "/tmp/tmpk3v9x2ab".

Definition temp_name (w : gmap string node)
  : (string + string) * gmap string node :=
  match w !! fresh_name with
  | Some Forbidden => (inr "PermissionError", w)
  | _ => (inl fresh_name, w)
  end.

Definition make_temp (d : string) (w : gmap string node)
  : (string + string) * gmap string node :=
  let name := path_join d "tmpk3v9x2ab" in
  if isdir w d then
    match w !! name with
    | None => (inl name, <[name := Dir]> w)
    | Some _ => (inr "FileExistsError", w)
    end
  else (inr "FileNotFoundError", w).

Definition cwd (w : gmap string node) : string := "/work".

Definition expand_user (env : gmap string string) (w : gmap string node)
  (p : string) : string :=
  if (String.eqb p "~" || PyStr.startswith p "~/")%bool
  then default "/home/user" (env !! "HOME")
       +:+ String.substring 1 (String.length p - 1) p
  else p.

Definition abs_path (w : gmap string node) (p : string) : string :=
  if PyStr.startswith p "/" then p else path_join (cwd w) p.

Definition parse_ini (w : gmap string node) (p : string)
  : gmap string string + string :=
  match w !! p with
  | Some (File ini) => inl (list_to_map ini)
  | _ => inr "cannot read"
  end.

(** Upper case of the ASCII letters. *)
Definition ascii_upper (s : string) : string :=
  PyStr.str
    (map (fun c => if PyStr.between 97 122 (PyStr.code c)
                   then ascii_of_N (PyStr.code c - 32) else c)
         (PyStr.chars s)).

Lemma exists_empty w : exists_ w "" = false.
Proof. unfold exists_. by destruct (w !! "") as [[]|]. Qed.

Lemma isdir_exists w p : isdir w p = true -> exists_ w p = true.
Proof. unfold isdir, exists_. by destruct (w !! p) as [[]|]. Qed.

Lemma make_dirs_isdir p w w' : make_dirs p w = (None, w') -> isdir w' p = true.
Proof.
  unfold make_dirs, isdir.
  destruct (PyStr.truthy p) eqn:Hp; simpl; [|done].
  destruct (w !! p) as [[]|] eqn:Hw; intros [= <-]; try done.
  - by rewrite Hw.
  - by rewrite lookup_insert_eq.
Qed.

#[export] Instance platform : Platform := {|
  world := gmap string node;
  path_exists := exists_;
  path_isdir := isdir;
  path_isfile := isfile;
  makedirs := make_dirs;
  touch := touch_file;
  temporary_directory_name := temp_name;
  mkdtemp := make_temp;
  getcwd := cwd;
  expanduser := expand_user;
  abspath := abs_path;
  parse_ini_file := parse_ini;
  upper := ascii_upper;
  path_exists_empty := exists_empty;
  path_isdir_exists := isdir_exists;
  makedirs_isdir := make_dirs_isdir
|}.

(** Sample values for the two verbosity constants. *)
Definition V : Verbosity.t := {| Verbosity.NORMAL := 1; Verbosity.VERBOSE := 2 |}.

Definition blank : RVConfig :=
  {| verbosity := None; rv_home := None; config := None |}.

(** A process that has just started: nothing logged, no root chosen. *)
Definition start (w : gmap string node) (env : gmap string string) : state :=
  {| fs := w; environ := env; tmp_dir := None; root_log_level := NOTSET;
     records := []; self := blank |}.

End Toy.


(* ===================================================================== *)
(** ** The operations of the class as a transition system *)
(* ===================================================================== *)

Section Operations.

Context {P : Platform}.
Variable V : Verbosity.t.

Inductive op : Type :=
| OpSetTmpDir (arg : option string)
| OpGetTmpDirRoot
| OpGetTmpDir
| OpReset (profile rv_home_arg : option string)
          (config_overrides : option (list (string * string)))
          (tmp_dir_arg : option string) (verbosity_arg : Z)
| OpGetVerbosity
| OpGetConfigDict (schema : list (string * list string))
| OpGetPluginModules.

(** The candidates [_discover_config_file_locations] checks, before its
    filter, for an object whose [rv_home] is [home]: the file named by
    [RV_CONFIG], the profile under [RV_CONFIG_DIR] or else under [home], and
    [.rastervision] in the working directory. *)
Definition candidate_locations (profile : string) (home : string) (st : state)
  : list string :=
  (if truthy_opt (environ st !! "RV_CONFIG")
   then [default "" (environ st !! "RV_CONFIG")] else [])
  ++ [if truthy_opt (environ st !! "RV_CONFIG_DIR")
      then path_join (default "" (environ st !! "RV_CONFIG_DIR")) profile
      else path_join home profile]
  ++ [path_join (getcwd (fs st)) ".rastervision"].

(** The text of the exception raised for a profile without configuration. *)
Definition not_found_message (profile : string) (result : list string)
  : string :=
  "Configuration Profile " +:+ profile +:+ " not found. "
  +:+ "Checked: " +:+ PyStr.join ", " result.

(** The state in which [reset] reaches its temp-directory step: the
    verbosity is stored and the logger level is set. *)
Definition after_level (v : Z) (st : state) : state :=
  with_root_log_level (level_of_verbosity V v)
    (with_self {| verbosity := Some v; rv_home := rv_home (self st);
                  config := config (self st) |} st).

(** The value [reset] stores in [self.rv_home], and the two later updates
    of the object. *)
Definition stored_home (rv_home_arg : option string) (st : state) : string :=
  match rv_home_arg with
  | Some h => h
  | None => path_join (expanduser (environ st) (fs st) "~") ".rastervision"
  end.

Definition with_home (h : string) (st : state) : state :=
  with_self {| verbosity := verbosity (self st); rv_home := Some h;
               config := config (self st) |} st.

Definition with_config (c : list config_env) (st : state) : state :=
  with_self {| verbosity := verbosity (self st); rv_home := rv_home (self st);
               config := Some c |} st.

(** The part of [reset] after the temp-directory step, run in [st1]. *)
Definition reset_tail (p h : option string)
  (ov : option (list (string * string))) (st1 : state) : result unit * state :=
  let st2 := with_home (stored_home h st1) st1 in
  match _discover_config_file_locations
          (resolve_profile p (environ st1)) st2 with
  | (Raise e, st3) => (Raise e, st3)
  | (Return locs, st3) =>
      match ini_env (environ st3) (fs st3) locs with
      | Raise e => (Raise e, st3)
      | Return ini =>
          (Return tt,
           with_config [dict_env (default [] ov); ConfigOSEnv; ini] st3)
      end
  end.

(** [self.get_subconfig(namespace)(key, default=...)], the lookup that
    [get_config_dict] and [get_plugin_modules] make. *)
Definition lookup (namespace key : string) (dflt : option string) : M string :=
  bind (get_subconfig namespace) (fun sub => namespaced_call sub key dflt).




(** The (namespace, key) pairs of a schema, in iteration order. *)
Definition schema_pairs (schema : list (string * list string))
  : list (string * string) :=
  flat_map (fun item => map (fun key => (fst item, key)) (snd item)) schema.

(** The error of a lookup that finds no value and has no default. *)
Definition missing (key : string) : exn :=
  ConfigurationError (key +:+ " requires a value parseable by str").

(** The key under which [get_config_dict] stores a pair. *)
Definition dict_key (q : string * string) : string :=
  fst q +:+ "_" +:+ snd q.

(** The two loops of [get_config_dict] over a fixed table of values: every
    pair in turn is stored, and the first pair without a value raises. *)
Fixpoint fill (value : string * string -> option string)
  (pairs : list (string * string)) (d : gmap string string)
  : result (gmap string string) :=
  match pairs with
  | [] => Return d
  | q :: rest =>
      match value q with
      | Some val => fill value rest (<[dict_key q := val]> d)
      | None => Raise (missing (snd q))
      end
  end.

(** The state an operation leaves, whether it returns or raises. *)
Definition exec (o : op) (st : state) : state :=
  match o with
  | OpSetTmpDir arg => snd (set_tmp_dir arg st)
  | OpGetTmpDirRoot => snd (get_tmp_dir_root st)
  | OpGetTmpDir => snd (get_tmp_dir st)
  | OpReset p h ov t v => snd (reset V p h ov t v st)
  | OpGetVerbosity => snd (get_verbosity st)
  | OpGetConfigDict schema => snd (get_config_dict schema st)
  | OpGetPluginModules => snd (get_plugin_modules st)
  end.

(** The call of [set_tmp_dir] an operation makes, if it makes one: its
    argument and the state it is made in. *)
Definition setter (o : op) (st : state) : option (option string * state) :=
  match o with
  | OpSetTmpDir arg => Some (arg, st)
  | OpGetTmpDirRoot | OpGetTmpDir =>
      match tmp_dir st with
      | None => Some (None, st)
      | Some _ => None
      end
  | OpReset _ _ _ (Some d) v =>
      Some (Some d, after_level v st)
  | _ => None
  end.

(** Whether an operation reaches one of the two assignments to
    [RVConfig.tmp_dir]: it calls [set_tmp_dir] and a candidate is chosen. *)
Definition assigns (o : op) (st : state) : bool :=
  match setter o st with
  | Some (arg, st0) =>
      match fst (explicit_tmp_dir arg st0) with
      | Return _ => true
      | Raise _ => false
      end
  | None => false
  end.

(** A sequence of operations, one after the other. *)
Definition run (ops : list op) (st : state) : state :=
  fold_left (fun s o => exec o s) ops st.

(** The world in which [set_tmp_dir] probes the path [d], when it has
    chosen [d] in the state [st]: the path has been created if it was
    missing. *)
Definition probe_world (d : string) (st : state) : world :=
  if path_exists (fs st) d then fs st else snd (makedirs d (fs st)).

End Operations.

(** Concrete worlds for the toy platform. *)
Module Examples.

(** Nothing can be made at /ro/x, and the default root cannot be made. *)
Definition read_only : gmap string Toy.node :=
  {[ "/ro/x" := Toy.Forbidden; "/opt/data/tmp/" := Toy.Forbidden ]}.

(** Nothing can be made at /ro/x; the default root is there, read-only. *)
Definition default_read_only : gmap string Toy.node :=
  {[ "/ro/x" := Toy.Forbidden; "/opt/data/tmp/" := Toy.Dir;
     "/opt/data/tmp/.can_touch" := Toy.Forbidden ]}.

(** Three configuration files; the first one has no key for FOO.bar. *)
Definition three_files : gmap string Toy.node :=
  {[ "/etc/rv.ini" := Toy.File [("OTHER_KEY", "0")];
     "/home/user/.rastervision/default" := Toy.File [("FOO_BAR", "3")];
     "/work/.rastervision" := Toy.File [("FOO_BAR", "4")] ]}.

Definition three_files_env : gmap string string :=
  {[ "RV_CONFIG" := "/etc/rv.ini" ]}.


(** The state after a constructor call that overrides PLUGINS.modules. *)
Definition plugins_state (modules : string) : state :=
  snd (reset Toy.V None None (Some [("PLUGINS_modules", modules)]) None 1
         (Toy.start ∅ ∅)).

(** The state after a constructor call that overrides FOO.bar only. *)
Definition foo_bar_state : state :=
  snd (reset Toy.V None None (Some [("FOO_bar", "1")]) None 1
         (Toy.start ∅ ∅)).

(** The sources of that object. *)
Definition foo_bar_envs : list config_env :=
  [dict_env (P:=Toy.platform) [("FOO_bar", "1")]; ConfigOSEnv;
   ConfigIniEnv None ∅].

(** The text of the exception for the profile foo in an empty world. *)
Definition foo_not_found : string :=
  "Configuration Profile foo not found. "
  +:+ "Checked: /home/user/.rastervision/foo, /work/.rastervision".

End Examples.

(* ===================================================================== *)
(** ** The wording of the specification, where it is compared to the code *)
(* ===================================================================== *)

Module Spec.

(** A value read as a JSON array: only a list qualifies. *)
Definition as_array (v : value) : option (list value) :=
  match v with
  | PyList items => Some items
  | _ => None
  end.

(** The list parser as worded: parse the re-quoted text as a JSON array;
    when that fails, split the original text on commas and strip each
    piece. *)
Definition load_conf_list (s : string) : value :=
  match Json.loads (PyStr.replace PyStr.single_quote PyStr.double_quote s) ≫= as_array with
  | Some items => PyList items
  | None => PyList (map (fun x => PyStr (PyStr.strip x)) (PyStr.split "," s))
  end.

(** A sequence of strings. *)
Definition is_str (v : value) : bool :=
  match v with
  | PyStr _ => true
  | _ => false
  end.

Definition is_str_list (v : value) : bool :=
  match v with
  | PyList items => forallb is_str items
  | _ => false
  end.

(** The first candidate that is present and not empty. *)
Fixpoint first_non_empty (l : list (option string)) : option string :=
  match l with
  | [] => None
  | Some s :: r => if PyStr.truthy s then Some s else first_non_empty r
  | None :: r => first_non_empty r
  end.

(** The first candidate that is present. *)
Fixpoint first_present (l : list (option string)) : option string :=
  match l with
  | [] => None
  | Some s :: _ => Some s
  | None :: r => first_present r
  end.

(** The ordered candidates of [set_tmp_dir]: the argument, the variables
    [TMPDIR], [TEMP], [TMP], the cached root. *)
Definition tmp_dir_candidates (arg : option string)
  (env : gmap string string) (cached : option string) : list (option string) :=
  [arg; env !! "TMPDIR"; env !! "TEMP"; env !! "TMP"; cached].

End Spec.

(* ===================================================================== *)
(** ** Properties *)
(* ===================================================================== *)

Section Properties.

Context {P : Platform}.
Variable V : Verbosity.t.

Ltac unfold_monad :=
  unfold try_except_finally, bind, when, os_call, name_call, log, modify,
    get, raise, ret in *.

(** *** What [set_tmp_dir] leaves alone *)

Lemma explicit_tmp_dir_frame arg st :
  let st' := snd (explicit_tmp_dir arg st) in
  environ st' = environ st /\ root_log_level st' = root_log_level st
  /\ self st' = self st /\ tmp_dir st' = tmp_dir st
  /\ records st' = records st.
Proof.
  unfold explicit_tmp_dir. unfold_monad. simpl.
  repeat case_match; simpl; auto.
Qed.

Lemma set_tmp_dir_frame arg st :
  let st' := snd (set_tmp_dir arg st) in
  environ st' = environ st /\ root_log_level st' = root_log_level st
  /\ self st' = self st.
Proof.
  pose proof (explicit_tmp_dir_frame arg st) as Hf.
  unfold set_tmp_dir. unfold_monad. simpl in *.
  destruct (explicit_tmp_dir arg st) as [[d|e] st1]; simpl in *; [|tauto].
  destruct Hf as (He & Hl & Hs & _).
  repeat (case_match; simplify_eq/=); auto.
Qed.

(** *** The candidate path *)

Lemma explicit_tmp_dir_first_present arg st :
  explicit_tmp_dir arg st =
  match Spec.first_present
          (Spec.tmp_dir_candidates arg (environ st) (tmp_dir st)) with
  | Some d => (Return d, st)
  | None => name_call temporary_directory_name st
  end.
Proof.
  unfold explicit_tmp_dir, Spec.tmp_dir_candidates. unfold_monad. simpl.
  destruct arg as [a|]; [done|].
  destruct (environ st !! "TMPDIR") as [x|] eqn:E1,
           (environ st !! "TEMP") as [y|] eqn:E2,
           (environ st !! "TMP") as [z|] eqn:E3,
           (tmp_dir st) as [c|];
    simpl; rewrite ?E1, ?E2, ?E3; reflexivity.
Qed.

Lemma explicit_tmp_dir_some d st :
  explicit_tmp_dir (Some d) st = (Return d, st).
Proof. by rewrite explicit_tmp_dir_first_present. Qed.

(** C3 (as amended).  [set_tmp_dir] validates the first candidate that is
    present, in the order: the argument, [TMPDIR], [TEMP], [TMP], the
    cached root; a candidate that is present but empty is taken as it is.
    Only when none is present is the name generator of the platform asked,
    and its failure is the failure of the call. *)
Theorem explicit_tmp_dir_order (arg : option string) (st : state) :
  explicit_tmp_dir arg st =
  match arg with
  | Some d => (Return d, st)
  | None =>
    match environ st !! "TMPDIR" with
    | Some d => (Return d, st)
    | None =>
      match environ st !! "TEMP" with
      | Some d => (Return d, st)
      | None =>
        match environ st !! "TMP" with
        | Some d => (Return d, st)
        | None =>
          match tmp_dir st with
          | Some d => (Return d, st)
          | None =>
            match temporary_directory_name (fs st) with
            | (inl name, w) => (Return name, with_fs w st)
            | (inr msg, w) => (Raise (OSError msg), with_fs w st)
            end
          end
        end
      end
    end
  end.
Proof.
  rewrite explicit_tmp_dir_first_present.
  unfold Spec.tmp_dir_candidates, name_call; simpl.
  destruct arg, (environ st !! "TMPDIR"), (environ st !! "TEMP"),
    (environ st !! "TMP"), (tmp_dir st); reflexivity.
Qed.

(** *** The outcome of [set_tmp_dir] *)

Lemma set_tmp_dir_validated arg st :
  let st' := snd (set_tmp_dir arg st) in
  match explicit_tmp_dir arg st with
  | (Raise _, _) => tmp_dir st' = tmp_dir st
  | (Return d, st1) =>
      tmp_dir st' = Some DEFAULT_DIR
      \/ (tmp_dir st' = Some d
          /\ path_isdir (probe_world d st1) d = true
          /\ fst (touch (path_join d ".can_touch") (probe_world d st1)) = None)
  end.
Proof.
  pose proof (explicit_tmp_dir_frame arg st) as Hf.
  unfold set_tmp_dir, probe_world. unfold_monad. simpl in *.
  destruct (explicit_tmp_dir arg st) as [[d|e] st1]; simpl in *; [|tauto].
  repeat (case_match; simplify_eq/=); auto.
  all: right; split_and!; [done | by apply negb_false_iff |].
  all: match goal with H : touch _ _ = _ |- _ => by rewrite H end.
Qed.

Lemma set_tmp_dir_returns arg st st' :
  set_tmp_dir arg st = (Return tt, st') ->
  exists d, tmp_dir st' = Some d /\ path_isdir (fs st') d = true
            /\ path_exists (fs st') d = true.
Proof.
  unfold set_tmp_dir. unfold_monad. simpl.
  destruct (explicit_tmp_dir arg st) as [[d|e] st1]; simpl; [|done].
  repeat (case_match; simplify_eq/=); intros; simplify_eq/=.
  all: eexists; (split; [reflexivity|]).
  all: match goal with H : makedirs _ _ = (None, _) |- _ =>
         pose proof (makedirs_isdir _ _ _ H) as Hd end.
  all: split; [done | by apply path_isdir_exists].
Qed.

Lemma set_tmp_dir_raises_os arg st st' e :
  set_tmp_dir arg st = (Raise e, st') ->
  exists m, e = OSError m
  /\ ((Spec.first_present
         (Spec.tmp_dir_candidates arg (environ st) (tmp_dir st)) = None
       /\ fst (temporary_directory_name (fs st)) = inr m
       /\ tmp_dir st' = tmp_dir st)
      \/ (exists d w, tmp_dir st' = Some d
                      /\ makedirs d w = (Some m, fs st'))).
Proof.
  unfold set_tmp_dir. unfold_monad.
  rewrite explicit_tmp_dir_first_present. unfold name_call.
  generalize (Spec.first_present
                (Spec.tmp_dir_candidates arg (environ st) (tmp_dir st))).
  intros [d|]; simpl.
  - repeat (case_match; simplify_eq/=); intros; simplify_eq/=.
    all: eexists; (split; [reflexivity|]); right; eauto.
  - destruct (temporary_directory_name (fs st)) as [[name|m] w]; simpl.
    + repeat (case_match; simplify_eq/=); intros; simplify_eq/=.
      all: eexists; (split; [reflexivity|]); right; eauto.
    + intros [= <- <-]. eexists; split; [reflexivity|]. left. done.
Qed.

(** C2 (as amended).  [set_tmp_dir] absorbs every failure to create,
    validate or write-probe the candidate by falling back to the fixed
    default root.  It raises only when no candidate is present and the name
    generator fails, or when the final creation of the chosen root fails.
    Whenever it returns, the chosen root is set and exists on disk. *)
Theorem set_tmp_dir_outcome (arg : option string) (st st' : state)
  (r : result unit) :
  set_tmp_dir arg st = (r, st') ->
  (r = Return tt ->
     exists d, tmp_dir st' = Some d /\ path_isdir (fs st') d = true
               /\ path_exists (fs st') d = true)
  /\ (forall e, r = Raise e ->
        exists m, e = OSError m
        /\ ((Spec.first_present
               (Spec.tmp_dir_candidates arg (environ st) (tmp_dir st)) = None
             /\ fst (temporary_directory_name (fs st)) = inr m
             /\ tmp_dir st' = tmp_dir st)
            \/ (exists d w, tmp_dir st' = Some d
                            /\ makedirs d w = (Some m, fs st'))))
  /\ (forall d st1, explicit_tmp_dir arg st = (Return d, st1) ->
        path_isdir (probe_world d st1) d = false
        \/ fst (touch (path_join d ".can_touch") (probe_world d st1)) <> None ->
        tmp_dir st' = Some DEFAULT_DIR).
Proof.
  intros Hrun. split_and!.
  - intros ->. by apply (set_tmp_dir_returns arg st).
  - intros e ->. by apply set_tmp_dir_raises_os.
  - intros d st1 Hd Hfail.
    pose proof (set_tmp_dir_validated arg st) as Hv.
    rewrite Hd, Hrun in Hv. simpl in Hv.
    destruct Hv as [Hv|(_ & Hdir & Htouch)]; [done|].
    destruct Hfail as [Hf|Hf]; congruence.
Qed.

(** *** Discovery of the configuration files *)

Lemma any_filter_exists (w : world) (l : list string) :
  any (List.filter (path_exists w) l) = existsb (path_exists w) l.
Proof.
  unfold any. induction l as [|x l IH]; simpl; [done|].
  destruct (path_exists w x) eqn:Hx; simpl; [|done].
  rewrite IH. destruct x as [|c x]; [|done].
  by rewrite path_exists_empty in Hx.
Qed.


Lemma discover_eq profile st h :
  rv_home (self st) = Some h ->
  _discover_config_file_locations profile st =
  let result := candidate_locations profile h st in
  if (negb (existsb (path_exists (fs st)) result)
      && negb (String.eqb profile DEFAULT_PROFILE))%bool
  then (Raise (Exception (not_found_message profile result)), st)
  else (Return (List.filter (path_exists (fs st)) result), st).
Proof.
  intros Hh.
  unfold _discover_config_file_locations, candidate_locations,
    not_found_message.
  unfold_monad. cbn -[any List.filter existsb]. rewrite Hh.
  destruct (truthy_opt (environ st !! "RV_CONFIG_DIR"));
    destruct (truthy_opt (environ st !! "RV_CONFIG"));
    cbn -[any List.filter existsb];
    rewrite any_filter_exists; by case_match.
Qed.



(** *** [reset], step by step *)

Lemma reset_eq p h ov t v st :
  reset V p h ov t v st =
  match (match t with
         | Some d => set_tmp_dir (Some d) (after_level V v st)
         | None => (Return tt, after_level V v st)
         end) with
  | (Raise e, st1) => (Raise e, st1)
  | (Return _, st1) =>
      reset_tail p h ov st1
  end.
Proof.
  unfold reset, reset_tail, after_level, with_home, with_config, stored_home.
  unfold_monad. simpl.
  destruct t as [d|]; simpl; repeat case_match; simplify_eq/=; reflexivity.
Qed.

Lemma set_tmp_dir_some_raises d st e st' :
  set_tmp_dir (Some d) st = (Raise e, st') -> exists m, e = OSError m.
Proof.
  intros Hrun.
  destruct (set_tmp_dir_raises_os _ _ _ _ Hrun) as (m & -> & _). by exists m.
Qed.

Lemma reset_tail_cases p h ov st1 r st' :
  reset_tail p h ov st1 = (r, st') ->
  let prof := resolve_profile p (environ st1) in
  let home := stored_home h st1 in
  let cands := candidate_locations prof home st1 in
  rv_home (self st') = Some home
  /\ fs st' = fs st1 /\ environ st' = environ st1
  /\ tmp_dir st' = tmp_dir st1 /\ root_log_level st' = root_log_level st1
  /\ ((r = Raise (Exception (not_found_message prof cands))
       /\ existsb (path_exists (fs st1)) cands = false
       /\ String.eqb prof DEFAULT_PROFILE = false)
      \/ ((forall msg, r <> Raise (Exception msg))
          /\ (existsb (path_exists (fs st1)) cands = true
              \/ String.eqb prof DEFAULT_PROFILE = true)
          /\ match ini_env (environ st1) (fs st1)
                     (List.filter (path_exists (fs st1)) cands) with
             | Raise e => r = Raise e /\ config (self st') = config (self st1)
             | Return ini =>
                 r = Return tt
                 /\ config (self st')
                    = Some [dict_env (default [] ov); ConfigOSEnv; ini]
             end)).
Proof.
  unfold reset_tail. simpl.
  rewrite (discover_eq (resolve_profile p (environ st1))
             (with_home (stored_home h st1) st1) (stored_home h st1) eq_refl).
  simpl.
  change (candidate_locations ?p ?h (with_home ?x st1))
    with (candidate_locations p h st1).
  destruct (existsb _ _) eqn:Hex; simpl.
  - destruct (ini_env _ _ _) as [ini|e] eqn:Hini; intros [= <- <-]; simpl;
      split_and!; try done; right; split_and!; try done; auto.
    destruct e; try done.
    clear -Hini. exfalso. revert Hini.
    induction (List.filter _ _) as [|x l IH]; simpl; [done|].
    repeat case_match; try done.
  - destruct (String.eqb _ DEFAULT_PROFILE) eqn:Hp; simpl.
    + destruct (ini_env _ _ _) as [ini|e] eqn:Hini; intros [= <- <-]; simpl;
        split_and!; try done; right; split_and!; try done; auto.
      destruct e; try done.
      clear -Hini. exfalso. revert Hini.
      induction (List.filter _ _) as [|x l IH]; simpl; [done|].
      repeat case_match; try done.
    + intros [= <- <-]. simpl. split_and!; try done. by left.
Qed.

Lemma reset_run p h ov t v st r st' :
  reset V p h ov t v st = (r, st') ->
  (exists d m, t = Some d /\ r = Raise (OSError m)
               /\ set_tmp_dir (Some d) (after_level V v st)
                  = (Raise (OSError m), st'))
  \/ (exists st1,
        match t with
        | Some d => set_tmp_dir (Some d) (after_level V v st) = (Return tt, st1)
        | None => st1 = after_level V v st
        end
        /\ environ st1 = environ st
        /\ root_log_level st1 = level_of_verbosity V v
        /\ reset_tail p h ov st1 = (r, st')).
Proof.
  rewrite reset_eq. destruct t as [d|].
  - pose proof (set_tmp_dir_frame (Some d) (after_level V v st)) as Hf.
    destruct (set_tmp_dir _ _) as [[[]|e] st1] eqn:Hs; simpl in Hf.
    + intros Ht. right. exists st1. by destruct Hf as (-> & -> & _).
    + intros [= <- <-]. left.
      destruct (set_tmp_dir_some_raises _ _ _ _ Hs) as [m ->]. eauto.
  - intros Ht. right. by exists (after_level V v st).
Qed.


(** *** The logger level *)

Lemma reset_root_log_level p h ov t v st :
  root_log_level (snd (reset V p h ov t v st)) = level_of_verbosity V v.
Proof.
  destruct (reset V p h ov t v st) as [r st'] eqn:Hrun. simpl.
  destruct (reset_run _ _ _ _ _ _ _ _ Hrun)
    as [(d & m & -> & -> & Hs)|(st1 & _ & _ & Hl & Htail)].
  - pose proof (set_tmp_dir_frame (Some d) (after_level V v st)) as Hf.
    rewrite Hs in Hf. simpl in Hf. by destruct Hf as (_ & -> & _).
  - destruct (reset_tail_cases _ _ _ _ _ _ Htail)
      as (_ & _ & _ & _ & -> & _). done.
Qed.

(** C8.  Whatever the arguments and the state, and whether [reset] returns
    or raises, it leaves the logger [rastervision] at the level given by
    the verbosity alone: debug from VERBOSE up, else info from NORMAL up,
    else warning. *)
Theorem reset_sets_log_level
  (p h : option string) (ov : option (list (string * string)))
  (t : option string) (v : Z) (st : state) :
  let l := root_log_level (snd (reset V p h ov t v st)) in
  ((Verbosity.VERBOSE V <= v)%Z -> l = DEBUG)
  /\ ((v < Verbosity.VERBOSE V)%Z -> (Verbosity.NORMAL V <= v)%Z -> l = INFO)
  /\ ((v < Verbosity.VERBOSE V)%Z -> (v < Verbosity.NORMAL V)%Z -> l = WARN).
Proof.
  simpl. rewrite reset_root_log_level. unfold level_of_verbosity.
  split_and!; intros; repeat case_match; try done; lia.
Qed.


(** *** Lookups do not change the state *)

Lemma manager_call_state envs key ns d st :
  snd (manager_call envs key ns d st) = st.
Proof. unfold manager_call. unfold_monad. by repeat case_match. Qed.

Lemma get_subconfig_state ns st : snd (get_subconfig ns st) = st.
Proof. unfold get_subconfig. unfold_monad. by repeat case_match. Qed.

Lemma config_dict_keys_state ns keys d st :
  snd (config_dict_keys ns keys d st) = st.
Proof.
  revert d. induction keys as [|k keys IH]; intros d; simpl; [done|].
  unfold_monad.
  pose proof (get_subconfig_state ns st) as Hs.
  destruct (get_subconfig ns st) as [[sub|e] st1]; simpl in *; subst; [|done].
  pose proof (manager_call_state (nc_config sub) k (Some [nc_namespace sub])
                None st) as Hm.
  unfold namespaced_call.
  destruct (manager_call _ _ _ _ st) as [[x|e] st2]; simpl in *; subst;
    [apply IH|done].
Qed.

Lemma config_dict_items_state items d st :
  snd (config_dict_items items d st) = st.
Proof.
  revert d. induction items as [|[ns keys] items IH]; intros d; simpl; [done|].
  unfold_monad.
  pose proof (config_dict_keys_state ns keys d st) as Hk.
  destruct (config_dict_keys ns keys d st) as [[x|e] st1]; simpl in *; subst;
    [apply IH|done].
Qed.

Lemma get_plugin_modules_state st : snd (get_plugin_modules st) = st.
Proof.
  unfold get_plugin_modules, namespaced_call. unfold_monad.
  pose proof (get_subconfig_state "PLUGINS" st) as Hs.
  destruct (get_subconfig "PLUGINS" st) as [[sub|e] st1]; simpl in *; subst;
    [|done].
  pose proof (manager_call_state (nc_config sub) "modules"
                (Some [nc_namespace sub]) (Some "") st) as Hm.
  by destruct (manager_call _ _ _ _ st) as [[x|e] st2]; simpl in *; subst.
Qed.

(** *** The temp-directory root along any sequence of operations *)

(** One operation, from any state: the root is left as it was, or set to
    the default root, or set to a candidate that passed the probe. *)
Lemma exec_tmp_dir_root (o : op) (st : state) :
  let st' := exec V o st in
  match setter V o st with
  | None => tmp_dir st' = tmp_dir st
  | Some (arg, st0) =>
      match explicit_tmp_dir arg st0 with
      | (Raise _, _) => tmp_dir st' = tmp_dir st
      | (Return d, st1) =>
          tmp_dir st' = Some DEFAULT_DIR
          \/ (tmp_dir st' = Some d
              /\ path_isdir (probe_world d st1) d = true
              /\ fst (touch (path_join d ".can_touch") (probe_world d st1))
                 = None)
      end
  end.
Proof.
  destruct o as [arg| | |p h ov t v| |schema|]; simpl.
  - apply set_tmp_dir_validated.
  - unfold get_tmp_dir_root. unfold_monad. simpl.
    destruct (tmp_dir st) as [c|] eqn:Hc; simpl; [done|].
    pose proof (set_tmp_dir_validated None st) as Hv.
    destruct (explicit_tmp_dir None st) as [[d|e] st1];
      destruct (set_tmp_dir None st) as [[[]|e'] st2]; simpl in *;
      by rewrite ?Hc in Hv.
  - unfold get_tmp_dir. unfold_monad. simpl.
    destruct (tmp_dir st) as [c|] eqn:Hc; simpl.
    + rewrite Hc. by destruct (mkdtemp c (fs st)) as [[?|?] ?].
    + pose proof (set_tmp_dir_validated None st) as Hv.
      destruct (explicit_tmp_dir None st) as [[d|e] st1];
        destruct (set_tmp_dir None st) as [[[]|e'] st2]; simpl in *;
        rewrite ?Hc in Hv; try done.
      all: destruct (tmp_dir st2) as [c2|] eqn:Hc2; simpl; rewrite ?Hc2;
        try done.
      all: destruct (mkdtemp c2 (fs st2)) as [[?|?] ?]; simpl; by rewrite Hc2.
  - destruct (reset V p h ov t v st) as [r st'] eqn:Hrun. simpl.
    destruct (reset_run _ _ _ _ _ _ _ _ Hrun)
      as [(d & m & -> & -> & Hs)|(st1 & Hstep & _ & _ & Htail)].
    + pose proof (set_tmp_dir_validated (Some d) (after_level V v st)) as Hv.
      rewrite explicit_tmp_dir_some in *. by rewrite Hs in Hv.
    + destruct (reset_tail_cases _ _ _ _ _ _ Htail) as (_ & _ & _ & -> & _).
      destruct t as [d|]; [|by subst].
      pose proof (set_tmp_dir_validated (Some d) (after_level V v st)) as Hv.
      rewrite explicit_tmp_dir_some in *. by rewrite Hstep in Hv.
  - unfold get_verbosity. unfold_monad. by repeat case_match.
  - unfold get_config_dict. by rewrite config_dict_items_state.
  - by rewrite get_plugin_modules_state.
Qed.

Lemma exec_not_assigns o st :
  assigns V o st = false -> tmp_dir (exec V o st) = tmp_dir st.
Proof.
  intros Ha. pose proof (exec_tmp_dir_root o st) as Hs.
  unfold assigns in Ha. simpl in Hs.
  destruct (setter V o st) as [[arg st0]|]; [|done].
  by destruct (explicit_tmp_dir arg st0) as [[d|e] st1].
Qed.

Lemma exec_assigns o st :
  assigns V o st = true ->
  exists arg st_call d st1,
    setter V o st = Some (arg, st_call)
    /\ explicit_tmp_dir arg st_call = (Return d, st1)
    /\ (tmp_dir (exec V o st) = Some DEFAULT_DIR
        \/ (tmp_dir (exec V o st) = Some d
            /\ path_isdir (probe_world d st1) d = true
            /\ fst (touch (path_join d ".can_touch") (probe_world d st1))
               = None)).
Proof.
  intros Ha. pose proof (exec_tmp_dir_root o st) as Hs.
  unfold assigns in Ha. simpl in Hs.
  destruct (setter V o st) as [[arg st0]|]; [|done].
  destruct (explicit_tmp_dir arg st0) as [[d|e] st1] eqn:He; [|done].
  by exists arg, st0, d, st1.
Qed.

Lemma run_snoc ops o st : run V (ops ++ [o]) st = exec V o (run V ops st).
Proof. unfold run. by rewrite fold_left_app. Qed.

(** C9 (as amended).  Start with the root unset and run any sequence of
    operations of the class.  At the end the root is unset, or it is the
    fixed default root, which is accepted without the write probe, or it is
    the candidate [d] of an operation [o] of the sequence: [o] called
    [set_tmp_dir], [d] was a directory and the write probe succeeded in the
    world of that call, and no operation after [o] assigned the root. *)
Theorem tmp_dir_root_invariant (ops : list op) (st0 : state) :
  tmp_dir st0 = None ->
  let st := run V ops st0 in
  tmp_dir st = None
  \/ tmp_dir st = Some DEFAULT_DIR
  \/ exists pre o post arg st_call d st1,
       ops = pre ++ o :: post
       /\ setter V o (run V pre st0) = Some (arg, st_call)
       /\ explicit_tmp_dir arg st_call = (Return d, st1)
       /\ path_isdir (probe_world d st1) d = true
       /\ fst (touch (path_join d ".can_touch") (probe_world d st1)) = None
       /\ tmp_dir st = Some d
       /\ (forall post1 o' post2,
             post = post1 ++ o' :: post2 ->
             assigns V o' (run V (pre ++ o :: post1) st0) = false).
Proof.
  intros Hstart. simpl.
  induction ops as [|o ops IH] using rev_ind; [by left|].
  rewrite run_snoc.
  destruct (assigns V o (run V ops st0)) eqn:Ha.
  - destruct (exec_assigns _ _ Ha)
      as (arg & st_call & d & st1 & Hset & He & [Hd|(Hd & Hdir & Htouch)]).
    + right. by left.
    + right. right. exists ops, o, [], arg, st_call, d, st1.
      split_and!; try done. by intros [|??] ??.
  - rewrite (exec_not_assigns _ _ Ha).
    destruct IH as [IH|[IH|IH]]; [by left|right; by left|].
    destruct IH as (pre & o0 & post & arg & st_call & d & st1
                    & -> & Hset & He & Hdir & Htouch & Hd & Hlast).
    right. right. exists pre, o0, (post ++ [o]), arg, st_call, d, st1.
    split_and!; try done.
    { by rewrite <- app_assoc. }
    intros post1 o' post2 Heq.
    destruct post2 as [|x post2 _] using rev_ind.
    + apply app_inj_tail in Heq as [-> ->]. done.
    + rewrite app_comm_cons, app_assoc in Heq.
      apply app_inj_tail in Heq as [-> ->]. by apply (Hlast post1 o' post2).
Qed.

(** *** Lookup through the sources *)

Lemma lookup_eq ns key dflt st envs :
  config (self st) = Some envs ->
  lookup ns key dflt st =
  (let '(k, nsp) := anchored key (Some [ns]) in
   match first_value envs (environ st) k nsp with
   | Some val => Return val
   | None => match dflt with
             | Some d => Return d
             | None => Raise (missing key)
             end
   end, st).
Proof.
  intros Hc. unfold lookup, get_subconfig, namespaced_call, manager_call.
  unfold_monad. simpl. rewrite Hc. simpl.
  destruct (anchored key (Some [ns])) as [k nsp].
  by repeat case_match.
Qed.



(** *** [get_config_dict] *)

Section Fill.

Variable value : string * string -> option string.

Lemma fill_app l1 l2 d :
  fill value (l1 ++ l2) d =
  match fill value l1 d with
  | Return d' => fill value l2 d'
  | Raise e => Raise e
  end.
Proof.
  revert d. induction l1 as [|q l1 IH]; intros d; simpl; [done|].
  by destruct (value q).
Qed.

Lemma fill_raise pre q post d :
  Forall (fun q' => is_Some (value q')) pre -> value q = None ->
  fill value (pre ++ q :: post) d = Raise (missing (snd q)).
Proof.
  intros Hpre Hq. revert d.
  induction Hpre as [|q' pre [val Hv] _ IH]; intros d; simpl.
  - by rewrite Hq.
  - rewrite Hv. apply IH.
Qed.

Lemma fill_return pairs d :
  Forall (fun q => is_Some (value q)) pairs ->
  exists d', fill value pairs d = Return d'
    /\ (forall k, Forall (fun q => dict_key q <> k) pairs -> d' !! k = d !! k)
    /\ (forall pre q post, pairs = pre ++ q :: post ->
          Forall (fun q' => dict_key q' <> dict_key q) post ->
          d' !! dict_key q = value q).
Proof.
  intros Hall. revert d.
  induction Hall as [|q0 rest [val Hv] _ IH]; intros d; simpl.
  - exists d. split_and!; [done..|]. by intros [|??] ??.
  - rewrite Hv. destruct (IH (<[dict_key q0 := val]> d)) as (d' & -> & Hk & Hq).
    exists d'. split_and!; [done| |].
    + intros k Hne. inversion_clear Hne as [|?? Hne0 Hne'].
      rewrite (Hk k Hne'). by rewrite lookup_insert_ne.
    + intros [|q1 pre] q post; simpl; intros [= ? ?] Hpost; subst.
      * rewrite (Hk _ Hpost). by rewrite lookup_insert_eq.
      * by apply (Hq pre q post).
Qed.

End Fill.

Lemma config_dict_keys_fill ns keys d st envs :
  config (self st) = Some envs ->
  config_dict_keys ns keys d st =
  (fill (fun q => let '(k, nsp) := anchored (snd q) (Some [fst q]) in
                  first_value envs (environ st) k nsp)
        (map (fun key => (ns, key)) keys) d, st).
Proof.
  intros Hc. revert d. induction keys as [|key keys IH]; intros d; simpl;
    [done|].
  pose proof (lookup_eq ns key None st envs Hc) as Hl.
  unfold lookup in Hl. unfold bind in *. simpl.
  destruct (get_subconfig ns st) as [[sub|e] st1] eqn:Hs.
  - rewrite Hl. destruct (anchored key (Some [ns])) as [k nsp].
    destruct (first_value _ _ _ _); [apply IH|done].
  - revert Hs. unfold get_subconfig. unfold_monad. by rewrite Hc.
Qed.

Lemma get_config_dict_fill schema st envs :
  config (self st) = Some envs ->
  get_config_dict schema st =
  (fill (fun q => let '(k, nsp) := anchored (snd q) (Some [fst q]) in
                  first_value envs (environ st) k nsp)
        (schema_pairs schema) ∅, st).
Proof.
  intros Hc. unfold get_config_dict. generalize (∅ : gmap string string).
  induction schema as [|[ns keys] schema IH]; intros d; simpl; [done|].
  unfold bind. rewrite (config_dict_keys_fill _ _ _ _ _ Hc), fill_app.
  destruct (fill _ (map _ keys) d); [apply IH|done].
Qed.

(** C7 (as amended).  [get_config_dict] looks every (namespace, key) pair
    of the schema up without a default.  When every pair has a value in
    some source, it returns the dictionary that holds, under the key
    namespace_key, the value of the last pair with that key, and nothing
    else.  When some pair has no value in any source it raises the
    error of the lookup for the first such pair, and returns no
    dictionary. *)
Theorem get_config_dict_outcome
  (schema : list (string * list string)) (st : state)
  (envs : list config_env) :
  config (self st) = Some envs ->
  let value (q : string * string) :=
    let '(k, nsp) := anchored (snd q) (Some [fst q]) in
    first_value envs (environ st) k nsp in
  let pairs := schema_pairs schema in
  (forall pre q post,
     pairs = pre ++ q :: post ->
     Forall (fun q' => is_Some (value q')) pre ->
     value q = None ->
     get_config_dict schema st
     = (Raise (ConfigurationError
                 (snd q +:+ " requires a value parseable by str")), st))
  /\ (Forall (fun q => is_Some (value q)) pairs ->
      exists d, get_config_dict schema st = (Return d, st)
        /\ (forall k, Forall (fun q => fst q +:+ "_" +:+ snd q <> k) pairs ->
                      d !! k = None)
        /\ (forall pre q post,
              pairs = pre ++ q :: post ->
              Forall (fun q' => fst q' +:+ "_" +:+ snd q'
                                <> fst q +:+ "_" +:+ snd q) post ->
              d !! (fst q +:+ "_" +:+ snd q) = value q)).
Proof.
  intros Hc value pairs. rewrite (get_config_dict_fill _ _ _ Hc).
  fold value. fold pairs. split.
  - intros pre q post -> Hpre Hq. by rewrite (fill_raise value pre q post).
  - intros Hall.
    destruct (fill_return value pairs ∅ Hall) as (d & -> & Hk & Hq).
    exists d. split_and!; [done| |done].
    intros k Hne. by rewrite (Hk k Hne).
Qed.

(** *** [get_plugin_modules] and [load_conf_list] *)

Lemma get_plugin_modules_eq st envs :
  config (self st) = Some envs ->
  get_plugin_modules st =
  (match fst (lookup "PLUGINS" "modules" (Some "") st) with
   | Return "" => Return (PyList [])
   | Return modules => Return (load_conf_list modules)
   | Raise e => Raise e
   end, st).
Proof.
  intros Hc. rewrite (lookup_eq _ _ _ _ _ Hc). simpl.
  unfold get_plugin_modules, get_subconfig, namespaced_call, manager_call.
  unfold_monad. simpl. rewrite Hc. simpl.
  destruct (first_value _ _ _ _) as [[|c m]|]; reflexivity.
Qed.

Lemma load_conf_list_agrees (s : string) :
  (forall v, Json.loads (PyStr.replace PyStr.single_quote PyStr.double_quote s) = Some v ->
             exists items, v = PyList items) ->
  load_conf_list s = Spec.load_conf_list s.
Proof.
  unfold load_conf_list, Spec.load_conf_list. intros Hlist.
  destruct (Json.loads _) as [v|]; simpl; [|done].
  by destruct (Hlist v eq_refl) as [items ->].
Qed.

End Properties.


(* ===================================================================== *)
(** ** Concrete runs on the toy platform *)
(* ===================================================================== *)

Module Runs.

Import Examples.
#[local] Existing Instance Toy.platform.

(** **** [load_conf_list] *)

Example load_conf_list_quoted :
  load_conf_list "['a', 'b']" = PyList [PyStr "a"; PyStr "b"].
Proof. reflexivity. Qed.

Example load_conf_list_commas :
  load_conf_list "a, b ,c" = PyList [PyStr "a"; PyStr "b"; PyStr "c"].
Proof. reflexivity. Qed.

Example load_conf_list_numbers :
  load_conf_list "[1, 2]" = PyList [PyInt 1; PyInt 2].
Proof. reflexivity. Qed.

(** C5 (the code departs from it).  The text 5 is not a JSON array, so the
    parser as worded turns it into the one-element list of its pieces; the
    code returns the integer that [json.loads] decoded, which is no list at
    all. *)
Theorem load_conf_list_scalar :
  load_conf_list "5" = PyInt 5
  /\ Spec.load_conf_list "5" = PyList [PyStr "5"].
Proof. split; reflexivity. Qed.

(** **** [get_plugin_modules] *)

Example get_plugin_modules_unset :
  fst (get_plugin_modules
         (snd (reset Toy.V None None None None 1 (Toy.start ∅ ∅))))
  = Return (PyList []).
Proof. reflexivity. Qed.

Example get_plugin_modules_empty :
  fst (get_plugin_modules (plugins_state "")) = Return (PyList []).
Proof. reflexivity. Qed.

Example get_plugin_modules_repeated :
  fst (get_plugin_modules (plugins_state "b.x, a.y, b.x"))
  = Return (PyList [PyStr "b.x"; PyStr "a.y"; PyStr "b.x"]).
Proof. reflexivity. Qed.

(** C6 (the code departs from it).  With the value 5 for PLUGINS.modules
    the method returns the integer 5, not a sequence of strings. *)
Theorem get_plugin_modules_scalar :
  fst (get_plugin_modules (plugins_state "5")) = Return (PyInt 5)
  /\ Spec.is_str_list (PyInt 5) = false.
Proof. split; reflexivity. Qed.

(** **** [set_tmp_dir] *)

(** C3, as stated, fails: an empty explicit argument is not passed over
    for the variable [TMPDIR] that is set. *)
Lemma explicit_tmp_dir_takes_empty :
  let st := Toy.start ∅ {[ "TMPDIR" := "/x" ]} in
  Spec.first_non_empty
    (Spec.tmp_dir_candidates (Some "") (environ st) (tmp_dir st)) = Some "/x"
  /\ fst (explicit_tmp_dir (Some "") st) = Return "".
Proof. split; reflexivity. Qed.

(** C2, as stated, fails: with a candidate that cannot be made and a
    default root that cannot be made either, the call raises. *)
Lemma set_tmp_dir_can_raise :
  let out := set_tmp_dir (Some "/ro/x") (Toy.start read_only ∅) in
  fst out = Raise (OSError "PermissionError")
  /\ tmp_dir (snd out) = Some DEFAULT_DIR
  /\ path_exists (fs (snd out)) DEFAULT_DIR = false.
Proof. split_and!; reflexivity. Qed.

Lemma set_tmp_dir_outcome_witness :
  let arg := Some "/ro/x" in
  let st := Toy.start default_read_only ∅ in
  let r := Return tt in
  let st' := snd (set_tmp_dir arg st) in
  set_tmp_dir arg st = (r, st')
  /\ (r = Return tt ->
        exists d, tmp_dir st' = Some d /\ path_isdir (fs st') d = true
                  /\ path_exists (fs st') d = true)
  /\ (forall e, r = Raise e ->
        exists m, e = OSError m
        /\ ((Spec.first_present
               (Spec.tmp_dir_candidates arg (environ st) (tmp_dir st)) = None
             /\ fst (temporary_directory_name (fs st)) = inr m
             /\ tmp_dir st' = tmp_dir st)
            \/ (exists d w, tmp_dir st' = Some d
                            /\ makedirs d w = (Some m, fs st'))))
  /\ (forall d st1, explicit_tmp_dir arg st = (Return d, st1) ->
        path_isdir (probe_world d st1) d = false
        \/ fst (touch (path_join d ".can_touch") (probe_world d st1)) <> None ->
        tmp_dir st' = Some DEFAULT_DIR).
Proof.
  intros arg st r st'.
  assert (Hrun : set_tmp_dir arg st = (r, st')) by (vm_compute; reflexivity).
  split; [exact Hrun|].
  exact (set_tmp_dir_outcome arg st st' r Hrun).
Defined.

(** C9, as stated, fails: the call falls back to the default root, which is
    there but read-only; the root is set to it although the write probe
    fails on it in the world of the call, which the call did not change. *)
Lemma tmp_dir_root_unvalidated :
  let st := Toy.start default_read_only ∅ in
  let st' := run Toy.V [OpSetTmpDir (Some "/ro/x")] st in
  tmp_dir st = None
  /\ tmp_dir st' = Some DEFAULT_DIR
  /\ fs st' = fs st
  /\ fst (touch (path_join DEFAULT_DIR ".can_touch") (fs st))
     = Some "PermissionError".
Proof. split_and!; reflexivity. Qed.

(** The root is also set when the default root cannot even be made. *)
Example tmp_dir_root_missing :
  let st := Toy.start read_only ∅ in
  let st' := run Toy.V [OpSetTmpDir (Some "/ro/x")] st in
  tmp_dir st' = Some DEFAULT_DIR
  /\ fs st' = fs st
  /\ path_exists (fs st) DEFAULT_DIR = false.
Proof. split_and!; reflexivity. Qed.

Lemma tmp_dir_root_invariant_witness :
  let ops := [OpSetTmpDir (Some "/a"); OpGetTmpDirRoot] in
  let st0 := Toy.start ∅ ∅ in
  tmp_dir st0 = None
  /\ (let st := run Toy.V ops st0 in
      tmp_dir st = None
      \/ tmp_dir st = Some DEFAULT_DIR
      \/ exists pre o post arg st_call d st1,
           ops = pre ++ o :: post
           /\ setter Toy.V o (run Toy.V pre st0) = Some (arg, st_call)
           /\ explicit_tmp_dir arg st_call = (Return d, st1)
           /\ path_isdir (probe_world d st1) d = true
           /\ fst (touch (path_join d ".can_touch") (probe_world d st1))
              = None
           /\ tmp_dir st = Some d
           /\ (forall post1 o' post2,
                 post = post1 ++ o' :: post2 ->
                 assigns Toy.V o' (run Toy.V (pre ++ o :: post1) st0)
                 = false)).
Proof.
  intros ops st0.
  assert (Hstart : tmp_dir st0 = None) by reflexivity.
  split; [exact Hstart|].
  exact (tmp_dir_root_invariant Toy.V ops st0 Hstart).
Defined.

(** The same run, evaluated: the root is the directory that was probed. *)
Example tmp_dir_root_kept :
  tmp_dir (run Toy.V [OpSetTmpDir (Some "/a"); OpGetTmpDirRoot]
             (Toy.start ∅ ∅)) = Some "/a".
Proof. reflexivity. Qed.

(** **** [reset] *)


(** The default profile in the same empty world: the constructor returns. *)
Example reset_default_profile :
  fst (reset Toy.V None None None None 1 (Toy.start ∅ ∅)) = Return tt.
Proof. reflexivity. Qed.

Lemma reset_sets_log_level_witness :
  let l := root_log_level
             (snd (reset Toy.V (Some "foo") None None None 2
                     (Toy.start ∅ ∅))) in
  (Verbosity.VERBOSE Toy.V <= 2)%Z /\ l = DEBUG.
Proof.
  intros l. split; [vm_compute; discriminate|].
  apply (reset_sets_log_level Toy.V (Some "foo") None None None 2
           (Toy.start ∅ ∅)).
  vm_compute; discriminate.
Defined.


(** The same failing call, evaluated: both side effects are there. *)
Example reset_failure_state :
  let st := Toy.start ∅ ∅ in
  let st' := snd (reset Toy.V (Some "foo") None None (Some "/a") 1 st) in
  root_log_level st = NOTSET /\ tmp_dir st = None
  /\ root_log_level st' = INFO /\ tmp_dir st' = Some "/a".
Proof. split_and!; reflexivity. Qed.

(** **** Lookup *)


(** The example of the specification, with the override written the way
    the dictionary source reads it: the override wins. *)
Example override_wins :
  let st := Toy.start
              {[ "/work/.rastervision" := Toy.File [("FOO_BAR", "3")] ]}
              {[ "FOO_BAR" := "2" ]} in
  let st' := snd (reset Toy.V None None (Some [("FOO_bar", "1")]) None 1 st) in
  fst (lookup "FOO" "bar" None st') = Return "1".
Proof. reflexivity. Qed.


(** **** [get_config_dict] *)

(** C7, as stated, fails: with FOO.bar defined and FOO.baz defined nowhere,
    the call raises and returns no dictionary. *)
Lemma get_config_dict_raises :
  fst (lookup "FOO" "bar" None foo_bar_state) = Return "1"
  /\ fst (get_config_dict [("FOO", ["bar"; "baz"])] foo_bar_state)
     = Raise (ConfigurationError "baz requires a value parseable by str").
Proof. split; reflexivity. Qed.

Example get_config_dict_defined :
  fst (get_config_dict [("FOO", ["bar"])] foo_bar_state)
  = Return {[ "FOO_bar" := "1" ]}.
Proof. reflexivity. Qed.

Lemma get_config_dict_outcome_witness :
  let schema := [("FOO", ["bar"; "baz"])] in
  let st := foo_bar_state in
  let envs := foo_bar_envs in
  config (self st) = Some envs
  /\ (let value (q : string * string) :=
        let '(k, nsp) := anchored (snd q) (Some [fst q]) in
        first_value envs (environ st) k nsp in
      let pairs := schema_pairs schema in
      (forall pre q post,
         pairs = pre ++ q :: post ->
         Forall (fun q' => is_Some (value q')) pre ->
         value q = None ->
         get_config_dict schema st
         = (Raise (ConfigurationError
                     (snd q +:+ " requires a value parseable by str")), st))
      /\ (Forall (fun q => is_Some (value q)) pairs ->
          exists d, get_config_dict schema st = (Return d, st)
            /\ (forall k,
                  Forall (fun q => fst q +:+ "_" +:+ snd q <> k) pairs ->
                  d !! k = None)
            /\ (forall pre q post,
                  pairs = pre ++ q :: post ->
                  Forall (fun q' => fst q' +:+ "_" +:+ snd q'
                                    <> fst q +:+ "_" +:+ snd q) post ->
                  d !! (fst q +:+ "_" +:+ snd q) = value q))).
Proof.
  intros schema st envs.
  assert (Hc : config (self st) = Some envs) by (vm_compute; reflexivity).
  split; [exact Hc|].
  exact (get_config_dict_outcome schema st envs Hc).
Defined.

End Runs.

(* ===================================================================== *)
(** ** Further properties of the module *)
(* ===================================================================== *)

(** *** [load_conf_list]: the comma-split path *)

Section SplitPath.

Import PyStr.

Lemma split_chars_length sep cur l :
  length (split_chars sep cur l)
  = S (length (List.filter (fun c => Ascii.eqb c sep) l)).
Proof.
  revert cur. induction l as [|c l IH]; intros cur; simpl; [done|].
  destruct (Ascii.eqb c sep); simpl; by rewrite IH.
Qed.

Lemma split_chars_no_sep sep cur l :
  Forall (fun c => c <> sep) cur ->
  Forall (Forall (fun c => c <> sep)) (split_chars sep cur l).
Proof.
  revert cur. induction l as [|c l IH]; intros cur Hcur; simpl.
  - constructor; [|constructor]. by apply Forall_rev.
  - destruct (Ascii.eqb c sep) eqn:Hc.
    + constructor; [by apply Forall_rev|]. apply IH. constructor.
    + apply IH. constructor; [|done].
      intros ->. by rewrite Ascii.eqb_refl in Hc.
Qed.

Lemma drop_space_suffix width skip l :
  exists pre, l = pre ++ drop_space width skip l.
Proof.
  revert skip. induction l as [|x l IH]; intros skip; simpl.
  - by exists [].
  - destruct skip as [|k].
    + destruct (width (x :: l)) as [|k]; [by exists []|].
      destruct (IH k) as [pre Hpre]. exists (x :: pre). simpl. by f_equal.
    + destruct (IH k) as [pre Hpre]. exists (x :: pre). simpl. by f_equal.
Qed.

Lemma strip_codes_subset (l : list N) (x : N) :
  In x (rstrip_codes (lstrip_codes l)) -> In x l.
Proof.
  unfold rstrip_codes, lstrip_codes. intros Hin.
  apply in_rev in Hin.
  destruct (drop_space_suffix space_width_rev 0
              (rev (drop_space space_width 0 l))) as [pre Hpre].
  assert (Hin' : In x (rev (drop_space space_width 0 l))).
  { rewrite Hpre. apply in_or_app. by right. }
  apply in_rev in Hin'.
  destruct (drop_space_suffix space_width 0 l) as [pre' Hpre'].
  rewrite Hpre'. apply in_or_app. by right.
Qed.

Lemma chars_str l : chars (str l) = l.
Proof. apply list_ascii_of_string_of_list_ascii. Qed.

Lemma strip_chars_subset (s : string) (c : ascii) :
  In c (chars (strip s)) -> In c (chars s).
Proof.
  unfold strip. rewrite chars_str. intros Hin.
  apply in_map_iff in Hin as (n & <- & Hn).
  apply strip_codes_subset in Hn.
  apply in_map_iff in Hn as (c' & <- & Hc').
  unfold code. by rewrite ascii_N_embedding.
Qed.

End SplitPath.

(** An ASCII letter with which no JSON value starts: any letter except
    n (null), t (true), f (false), N (NaN) and I (Infinity). *)
Definition plain_letter (c : ascii) : bool :=
  let n := PyStr.code c in
  ((PyStr.between 65 90 n || PyStr.between 97 122 n)
   && negb (N.eqb n 110 || N.eqb n 116 || N.eqb n 102
            || N.eqb n 78 || N.eqb n 73))%bool.

Lemma lex_plain_letter (c : ascii) (l : list ascii) :
  plain_letter c = true -> Json.lex 0 (c :: l) = None.
Proof.
  intros Hc.
  destruct c as [[] [] [] [] [] [] [] []]; try discriminate Hc; reflexivity.
Qed.

(** X1.  When the re-quoted text is not JSON, [load_conf_list] returns a
    list of strings with one item more than the text has commas, so never
    the empty list, and no item contains a comma. *)
Theorem load_conf_list_fallback (s : string) :
  Json.loads (PyStr.replace PyStr.single_quote PyStr.double_quote s) = None ->
  exists items : list string,
    load_conf_list s = PyList (map PyStr items)
    /\ length items
       = S (length (List.filter (fun c => Ascii.eqb c ","%char)
                      (PyStr.chars s)))
    /\ Forall (fun item => ~ In ","%char (PyStr.chars item)) items.
Proof.
  intros Hfail. exists (map PyStr.strip (PyStr.split "," s)).
  unfold load_conf_list. rewrite Hfail. split_and!.
  - by rewrite map_map.
  - unfold PyStr.split. rewrite !length_map. apply split_chars_length.
  - unfold PyStr.split. rewrite map_map. apply Forall_map.
    eapply Forall_impl; [apply (split_chars_no_sep "," []); constructor|].
    intros piece Hpiece Hin. simpl in Hin.
    apply strip_chars_subset in Hin. rewrite chars_str in Hin.
    rewrite List.Forall_forall in Hpiece. by apply (Hpiece _ Hin).
Qed.

(** X2.  A text that starts with an ASCII letter other than n, t, f, N
    and I (a plain list of module names, say) is never read as JSON: the
    result is its comma-separated pieces, each stripped. *)
Theorem load_conf_list_plain (c : ascii) (r : string) :
  plain_letter c = true ->
  load_conf_list (String c r)
  = PyList (map (fun x => PyStr (PyStr.strip x))
              (PyStr.split "," (String c r))).
Proof.
  intros Hc. unfold load_conf_list, Json.loads.
  assert (Hq : Ascii.eqb c PyStr.single_quote = false).
  { destruct c as [[] [] [] [] [] [] [] []]; try discriminate Hc;
      reflexivity. }
  assert (Hch : exists l,
            PyStr.chars (PyStr.replace PyStr.single_quote PyStr.double_quote
                           (String c r)) = c :: l).
  { unfold PyStr.replace. rewrite chars_str. simpl. rewrite Hq. eauto. }
  destruct Hch as [l ->]. by rewrite (lex_plain_letter c l Hc).
Qed.

Section Further.

Context {P : Platform}.
Variable V : Verbosity.t.

Ltac unfold_monad :=
  unfold try_except_finally, bind, when, os_call, name_call, log, modify,
    get, raise, ret in *.

(** *** What [reset] touches *)

Lemma reset_tail_object p h ov st1 :
  let st' := snd (reset_tail p h ov st1) in
  fs st' = fs st1 /\ environ st' = environ st1 /\ tmp_dir st' = tmp_dir st1
  /\ records st' = records st1
  /\ verbosity (self st') = verbosity (self st1)
  /\ rv_home (self st') = Some (stored_home h st1)
  /\ match fst (reset_tail p h ov st1) with
     | Return _ => True
     | Raise _ => config (self st') = config (self st1)
     end.
Proof.
  unfold reset_tail. simpl.
  rewrite (discover_eq (resolve_profile p (environ st1))
             (with_home (stored_home h st1) st1) (stored_home h st1) eq_refl).
  simpl. destruct (_ && _)%bool; simpl; [done|].
  by destruct (ini_env _ _ _).
Qed.

(** X3.  A [reset] that raises leaves the sources of the object as they
    were, so lookups go on answering from the previous configuration; the
    verbosity of the object is already the new one. *)
Theorem reset_failure_keeps_config
  (p h : option string) (ov : option (list (string * string)))
  (t : option string) (v : Z) (st st' : state) (e : exn) :
  reset V p h ov t v st = (Raise e, st') ->
  config (self st') = config (self st)
  /\ verbosity (self st') = Some v.
Proof.
  intros Hrun.
  destruct (reset_run V _ _ _ _ _ _ _ _ Hrun)
    as [(d & m & -> & _ & Hs)|(st1 & Hstep & _ & _ & Htail)].
  - pose proof (set_tmp_dir_frame (Some d) (after_level V v st)) as Hf.
    rewrite Hs in Hf. simpl in Hf. destruct Hf as (_ & _ & ->). done.
  - pose proof (reset_tail_object p h ov st1) as Ho.
    rewrite Htail in Ho. simpl in Ho.
    destruct Ho as (_ & _ & _ & _ & -> & _ & ->).
    destruct t as [d|]; [|by subst].
    pose proof (set_tmp_dir_frame (Some d) (after_level V v st)) as Hf.
    rewrite Hstep in Hf. simpl in Hf. destruct Hf as (_ & _ & ->). done.
Qed.

(** X4.  After [reset], returning or raising, [get_verbosity] returns the
    verbosity that was passed. *)
Theorem get_verbosity_after_reset
  (p h : option string) (ov : option (list (string * string)))
  (t : option string) (v : Z) (st : state) :
  let st' := snd (reset V p h ov t v st) in
  get_verbosity st' = (Return v, st').
Proof.
  simpl. destruct (reset V p h ov t v st) as [r st'] eqn:Hrun. simpl.
  assert (Hv : verbosity (self st') = Some v).
  { destruct (reset_run V _ _ _ _ _ _ _ _ Hrun)
      as [(d & m & -> & _ & Hs)|(st1 & Hstep & _ & _ & Htail)].
    - pose proof (set_tmp_dir_frame (Some d) (after_level V v st)) as Hf.
      rewrite Hs in Hf. simpl in Hf. destruct Hf as (_ & _ & ->). done.
    - pose proof (reset_tail_object p h ov st1) as Ho.
      rewrite Htail in Ho. simpl in Ho.
      destruct Ho as (_ & _ & _ & _ & -> & _).
      destruct t as [d|]; [|by subst].
      pose proof (set_tmp_dir_frame (Some d) (after_level V v st)) as Hf.
      rewrite Hstep in Hf. simpl in Hf. destruct Hf as (_ & _ & ->). done. }
  unfold get_verbosity. unfold_monad. by rewrite Hv.
Qed.

(** X5.  [reset] never changes [os.environ]; without a [tmp_dir] argument
    it changes neither the file system, nor the temp-directory root, nor
    what has been logged. *)
Theorem reset_frame
  (p h : option string) (ov : option (list (string * string)))
  (t : option string) (v : Z) (st : state) :
  let st' := snd (reset V p h ov t v st) in
  environ st' = environ st
  /\ (t = None ->
      fs st' = fs st /\ tmp_dir st' = tmp_dir st /\ records st' = records st).
Proof.
  simpl. destruct (reset V p h ov t v st) as [r st'] eqn:Hrun. simpl.
  destruct (reset_run V _ _ _ _ _ _ _ _ Hrun)
    as [(d & m & -> & _ & Hs)|(st1 & Hstep & Henv & _ & Htail)].
  - pose proof (set_tmp_dir_frame (Some d) (after_level V v st)) as Hf.
    rewrite Hs in Hf. simpl in Hf. destruct Hf as (-> & _). done.
  - pose proof (reset_tail_object p h ov st1) as Ho.
    rewrite Htail in Ho. simpl in Ho.
    destruct Ho as (Hfs & -> & Ht & Hr & _).
    split; [done|]. intros ->. subst st1. by rewrite Hfs, Ht, Hr.
Qed.

(** *** Discovery *)

(** X6.  When [_discover_config_file_locations] returns, the state is as
    before, every location it returns exists and is one of the candidates,
    in their order, and for a profile other than the default one the list
    is not empty. *)
Theorem discover_returns (profile home : string) (st st' : state)
  (locs : list string) :
  rv_home (self st) = Some home ->
  _discover_config_file_locations profile st = (Return locs, st') ->
  st' = st
  /\ locs = List.filter (path_exists (fs st))
              (candidate_locations profile home st)
  /\ Forall (fun l => path_exists (fs st) l = true) locs
  /\ (profile <> DEFAULT_PROFILE -> locs <> []).
Proof.
  intros Hh. rewrite (discover_eq profile st home Hh). simpl.
  destruct (existsb _ _) eqn:Hex; simpl.
  - intros [= <- <-]. split_and!; [done..| |].
    + apply List.Forall_forall. intros l Hl.
      by apply List.filter_In in Hl as [_ Hl].
    + intros _ Hnil.
      apply existsb_exists in Hex as (l & Hin & Hl).
      assert (Hin' : In l (List.filter (path_exists (fs st))
                             (candidate_locations profile home st)))
        by (apply List.filter_In; done).
      by rewrite Hnil in Hin'.
  - destruct (String.eqb profile DEFAULT_PROFILE) eqn:Hp; simpl; [|done].
    intros [= <- <-]. split_and!; [done..| |].
    + apply List.Forall_forall. intros l Hl.
      by apply List.filter_In in Hl as [_ Hl].
    + intros Hne. by apply String.eqb_eq in Hp.
Qed.

(** X7.  With [RV_CONFIG_DIR] set and not empty, the outcome of
    [_discover_config_file_locations] does not depend on the object:
    [self.rv_home] is not read, not even when it is unset. *)
Theorem discover_ignores_home (profile : string) (st1 st2 : state) :
  truthy_opt (environ st1 !! "RV_CONFIG_DIR") = true ->
  environ st1 = environ st2 -> fs st1 = fs st2 ->
  fst (_discover_config_file_locations profile st1)
  = fst (_discover_config_file_locations profile st2).
Proof.
  intros Hdir Henv Hfs.
  unfold _discover_config_file_locations. unfold_monad.
  cbn -[any List.filter existsb]. rewrite <- Henv, <- Hfs, Hdir.
  cbn -[any List.filter existsb]. by case_match.
Qed.

(** *** [set_tmp_dir] and the accessors *)

(** X8.  A candidate that is there or can be made, is a directory and
    takes the marker file is accepted: when the final [os.makedirs] passes
    too, [set_tmp_dir] returns, the root is the candidate, and the only log
    call is the debug record that names it. *)
Theorem set_tmp_dir_accepts (arg : option string) (st st1 : state)
  (d : string) (w1 w2 : world) :
  explicit_tmp_dir arg st = (Return d, st1) ->
  (path_exists (fs st1) d = true \/ fst (makedirs d (fs st1)) = None) ->
  path_isdir (probe_world d st1) d = true ->
  touch (path_join d ".can_touch") (probe_world d st1) = (None, w1) ->
  makedirs d w1 = (None, w2) ->
  exists st',
    set_tmp_dir arg st = (Return tt, st')
    /\ tmp_dir st' = Some d /\ fs st' = w2
    /\ records st' = records st
                     ++ [(DEBUG, "Temporary directory is: " +:+ d)].
Proof.
  intros He Hmk Hdir Htouch Hfin.
  pose proof (explicit_tmp_dir_frame arg st) as Hf.
  rewrite He in Hf. simpl in Hf. destruct Hf as (_ & _ & _ & _ & Hrec).
  unfold set_tmp_dir, probe_world in *. unfold_monad. rewrite He. simpl.
  destruct (path_exists (fs st1) d) eqn:Hex; simpl.
  - rewrite Hdir. simpl. rewrite Htouch. simpl. rewrite Hfin. simpl.
    eexists. split_and!; try reflexivity. simpl. by rewrite Hrec.
  - destruct Hmk as [Hmk|Hmk]; [done|].
    destruct (makedirs d (fs st1)) as [o w0]; simpl in *. subst o. simpl.
    rewrite Hdir. simpl. rewrite Htouch. simpl. rewrite Hfin. simpl.
    eexists. split_and!; try reflexivity. simpl. by rewrite Hrec.
Qed.


(** X10.  [get_tmp_dir_root] never returns [None]: when it returns, its
    value is the root of the process.  A root that was set is returned as
    it is, with no state change; a root resolved by this call is a
    directory in the file system the call leaves. *)
Theorem get_tmp_dir_root_returns (st st' : state) (o : option string) :
  get_tmp_dir_root st = (Return o, st') ->
  exists d, o = Some d /\ tmp_dir st' = Some d
    /\ ((tmp_dir st = Some d /\ st' = st)
        \/ (tmp_dir st = None /\ path_isdir (fs st') d = true)).
Proof.
  unfold get_tmp_dir_root. unfold_monad. simpl.
  destruct (tmp_dir st) as [c|] eqn:Hc; simpl.
  - rewrite Hc. intros [= <- <-]. exists c. split_and!; try done. by left.
  - destruct (set_tmp_dir None st) as [[[]|e] st2] eqn:Hs; simpl; [|done].
    intros [= <- <-].
    destruct (set_tmp_dir_returns None st st2 Hs) as (d & Hd & Hdir & _).
    exists d. split_and!; try done. by right.
Qed.

(** *** The read-only methods *)

(** X11.  [get_verbosity], [get_config_dict] and [get_plugin_modules]
    leave the whole state as it is, whether they return or raise. *)
Theorem read_only_methods (schema : list (string * list string))
  (st : state) :
  exec V OpGetVerbosity st = st
  /\ exec V (OpGetConfigDict schema) st = st
  /\ exec V OpGetPluginModules st = st.
Proof.
  simpl. split_and!.
  - unfold get_verbosity. unfold_monad. by repeat case_match.
  - unfold get_config_dict. apply config_dict_items_state.
  - apply get_plugin_modules_state.
Qed.


(** *** [get_config_dict]: the order of the schema *)

Section FillOrder.

Variable value : string * string -> option string.

Lemma fill_return_inv pairs d0 d :
  fill value pairs d0 = Return d ->
  Forall (fun q => is_Some (value q)) pairs.
Proof.
  revert d0. induction pairs as [|q pairs IH]; intros d0; simpl; [done|].
  destruct (value q) as [val|] eqn:Hv; [|done].
  intros Hf. constructor; [by exists val|by apply (IH _ Hf)].
Qed.

Lemma fill_nodup pairs d :
  fill value pairs ∅ = Return d ->
  NoDup (dict_key <$> pairs) ->
  forall k,
    d !! k = match List.find (fun q => String.eqb (dict_key q) k) pairs with
             | Some q => value q
             | None => None
             end.
Proof.
  intros Hf Hnd k.
  destruct (fill_return value pairs ∅ (fill_return_inv _ _ _ Hf))
    as (d' & Hd' & Hk & Hq).
  rewrite Hf in Hd'. injection Hd' as <-.
  destruct (List.find _ pairs) as [q|] eqn:Hfind.
  - apply List.find_some in Hfind as [Hin Heq].
    apply String.eqb_eq in Heq as <-.
    apply list_elem_of_In, list_elem_of_split in Hin as (pre & post & ->).
    apply (Hq pre q post eq_refl).
    rewrite fmap_app, fmap_cons in Hnd.
    apply NoDup_app in Hnd as (_ & _ & Hnd).
    apply NoDup_cons in Hnd as [Hnotin _].
    apply Forall_forall. intros q' Hq' Heq. apply Hnotin. rewrite <- Heq.
    by apply list_elem_of_fmap_2.
  - rewrite (Hk k); [done|].
    apply Forall_forall. intros q Hq' Heq.
    apply list_elem_of_In in Hq'.
    pose proof (List.find_none _ _ Hfind q Hq') as Hne. simpl in Hne.
    by rewrite Heq, String.eqb_refl in Hne.
Qed.

Lemma find_key_perm (pairs1 pairs2 : list (string * string)) k :
  pairs1 ≡ₚ pairs2 -> NoDup (dict_key <$> pairs1) ->
  List.find (fun q => String.eqb (dict_key q) k) pairs1
  = List.find (fun q => String.eqb (dict_key q) k) pairs2.
Proof.
  intros Hperm Hnd.
  assert (Hnd2 : NoDup (dict_key <$> pairs2)) by by rewrite <- Hperm.
  destruct (List.find _ pairs1) as [q1|] eqn:H1;
    destruct (List.find _ pairs2) as [q2|] eqn:H2; try done.
  - apply List.find_some in H1 as [Hin1 Heq1].
    apply List.find_some in H2 as [Hin2 Heq2].
    apply String.eqb_eq in Heq1, Heq2.
    apply list_elem_of_In in Hin1, Hin2. rewrite Hperm in Hin1.
    f_equal.
    apply list_elem_of_split in Hin1 as (pre & post & ->).
    rewrite fmap_app, fmap_cons in Hnd2.
    apply NoDup_app in Hnd2 as (_ & Hpre & Hnd2).
    apply NoDup_cons in Hnd2 as [Hpost _].
    apply elem_of_app in Hin2 as [Hin2|Hin2].
    + exfalso. apply (Hpre (dict_key q2)); [by apply list_elem_of_fmap_2|].
      rewrite Heq2, <- Heq1. by left.
    + apply elem_of_cons in Hin2 as [->|Hin2]; [done|].
      exfalso. apply Hpost. rewrite Heq1, <- Heq2.
      by apply list_elem_of_fmap_2.
  - apply List.find_some in H1 as [Hin1 Heq1].
    apply list_elem_of_In in Hin1. rewrite Hperm in Hin1.
    apply list_elem_of_In in Hin1.
    pose proof (List.find_none _ _ H2 q1 Hin1) as Hne. simpl in Hne.
    by rewrite Heq1 in Hne.
  - apply List.find_some in H2 as [Hin2 Heq2].
    apply list_elem_of_In in Hin2. rewrite <- Hperm in Hin2.
    apply list_elem_of_In in Hin2.
    pose proof (List.find_none _ _ H1 q2 Hin2) as Hne. simpl in Hne.
    by rewrite Heq2 in Hne.
Qed.

End FillOrder.

(** X13.  For a schema whose (namespace, key) pairs give pairwise distinct
    dictionary keys, the dictionary that [get_config_dict] returns does not
    depend on the order of the pairs: a schema with the same pairs in
    another order returns the same dictionary. *)
Theorem get_config_dict_order
  (schema1 schema2 : list (string * list string)) (st : state)
  (envs : list config_env) (d : gmap string string) :
  config (self st) = Some envs ->
  schema_pairs schema1 ≡ₚ schema_pairs schema2 ->
  NoDup (dict_key <$> schema_pairs schema1) ->
  get_config_dict schema1 st = (Return d, st) ->
  get_config_dict schema2 st = (Return d, st).
Proof.
  intros Hc Hperm Hnd.
  rewrite !(get_config_dict_fill _ _ _ Hc).
  set (value := fun q : string * string =>
                  let '(k, nsp) := anchored (snd q) (Some [fst q]) in
                  first_value envs (environ st) k nsp).
  intros [= Hf].
  assert (Hall : Forall (fun q => is_Some (value q)) (schema_pairs schema2)).
  { rewrite <- Hperm. by apply (fill_return_inv value _ ∅ d). }
  destruct (fill_return value _ ∅ Hall) as (d2 & Hf2 & _).
  rewrite Hf2. do 2 f_equal. apply map_eq. intros k.
  rewrite (fill_nodup value _ _ Hf Hnd k).
  rewrite (fill_nodup value _ _ Hf2 (proj1 (NoDup_Permutation_proper _ _
             (fmap_Permutation dict_key _ _ Hperm)) Hnd) k).
  by rewrite (find_key_perm _ _ k Hperm Hnd).
Qed.

(** *** From the overrides of the constructor to the lookups *)

Lemma reset_returns_config p h ov t v st st' :
  reset V p h ov t v st = (Return tt, st') ->
  exists ini,
    config (self st') = Some [dict_env (default [] ov); ConfigOSEnv; ini].
Proof.
  intros Hrun.
  destruct (reset_run V _ _ _ _ _ _ _ _ Hrun)
    as [(d & m & _ & [=] & _)|(st1 & _ & _ & _ & Htail)].
  destruct (reset_tail_cases _ _ _ _ _ _ Htail)
    as (_ & _ & _ & _ & _ & [(Hr & _)|(_ & _ & Hini)]); [done|].
  destruct (ini_env _ _ _) as [ini|e]; destruct Hini as [[=] Hc].
  by exists ini.
Qed.

Lemma override_first_value ns key val ini env :
  PyStr.truthy ns = true ->
  PyStr.startswith key "root:" = false ->
  (let '(k, nsp) := anchored key (Some [ns]) in
   first_value [dict_env [(ns +:+ "_" +:+ key, val)]; ConfigOSEnv; ini]
     env k nsp) = Some val.
Proof.
  intros Hns Hroot. unfold anchored. rewrite Hroot. simpl.
  unfold upper_keys. simpl. rewrite Hns. simpl.
  by rewrite lookup_insert_eq.
Qed.

(** X14.  An override written as namespace_key reaches [get_config_dict]:
    after a constructor call with that single override, the schema of the
    one pair gives the dictionary with the one entry, whatever the
    environment and the files hold.  The namespace must not be empty and
    the key must not carry the [root:] anchor. *)
Theorem override_reaches_config_dict
  (p h : option string) (t : option string) (v : Z) (st st' : state)
  (ns key val : string) :
  PyStr.truthy ns = true ->
  PyStr.startswith key "root:" = false ->
  reset V p h (Some [(ns +:+ "_" +:+ key, val)]) t v st = (Return tt, st') ->
  get_config_dict [(ns, [key])] st'
  = (Return {[ ns +:+ "_" +:+ key := val ]}, st').
Proof.
  intros Hns Hroot Hrun.
  destruct (reset_returns_config _ _ _ _ _ _ _ Hrun) as [ini Hc].
  rewrite (get_config_dict_fill _ _ _ Hc). simpl.
  pose proof (override_first_value ns key val ini (environ st') Hns Hroot)
    as Hv.
  destruct (anchored key (Some [ns])) as [k nsp]. simpl in Hv.
  rewrite Hv. unfold dict_key. simpl. by rewrite insert_empty.
Qed.

(** X15.  An override of PLUGINS_modules reaches [get_plugin_modules]:
    after a constructor call with that single override the method returns
    the empty list for the empty value and otherwise what [load_conf_list]
    makes of the value, whatever the environment and the files hold. *)
Theorem override_reaches_plugin_modules
  (p h : option string) (t : option string) (v : Z) (st st' : state)
  (val : string) :
  reset V p h (Some [("PLUGINS_modules", val)]) t v st = (Return tt, st') ->
  get_plugin_modules st'
  = (Return (if String.eqb val "" then PyList [] else load_conf_list val),
     st').
Proof.
  intros Hrun.
  destruct (reset_returns_config _ _ _ _ _ _ _ Hrun) as [ini Hc].
  rewrite (get_plugin_modules_eq st' _ Hc).
  rewrite (lookup_eq _ _ _ _ _ Hc).
  assert (Hv : first_value
                 [dict_env (default [] (Some [("PLUGINS_modules", val)]));
                  ConfigOSEnv; ini]
                 (environ st') "modules" (Some ["PLUGINS"]) = Some val)
    by exact (override_first_value "PLUGINS" "modules" val ini (environ st')
                eq_refl eq_refl).
  change (anchored "modules" (Some ["PLUGINS"]))
    with ("modules", Some ["PLUGINS"]).
  cbv beta iota. rewrite Hv. by destruct val.
Qed.

(** *** [reset] and the previous object *)

Lemma explicit_tmp_dir_with_self o arg st :
  explicit_tmp_dir arg (with_self o st)
  = (fst (explicit_tmp_dir arg st), with_self o (snd (explicit_tmp_dir arg st))).
Proof.
  rewrite !explicit_tmp_dir_first_present.
  change (environ (with_self o st)) with (environ st).
  change (tmp_dir (with_self o st)) with (tmp_dir st).
  destruct (Spec.first_present _); [done|].
  unfold name_call. simpl.
  by destruct (temporary_directory_name (fs st)) as [[?|?] ?].
Qed.

Ltac merge_runs :=
  repeat match goal with
         | H1 : ?t = _, H2 : ?t = _ |- _ => rewrite H1 in H2; simplify_eq/=
         end.

Lemma set_tmp_dir_with_self o arg st :
  set_tmp_dir arg (with_self o st)
  = (fst (set_tmp_dir arg st), with_self o (snd (set_tmp_dir arg st))).
Proof.
  unfold set_tmp_dir. unfold_monad.
  rewrite explicit_tmp_dir_with_self.
  destruct (explicit_tmp_dir arg st) as [[d|e] st1]; simpl; [|done].
  repeat (case_match; simplify_eq/=); merge_runs; try reflexivity;
    congruence.
Qed.

Lemma reset_tail_with_self p h ov sb o1 o2 :
  verbosity o1 = verbosity o2 ->
  fst (reset_tail p h ov (with_self o1 sb))
  = fst (reset_tail p h ov (with_self o2 sb))
  /\ (fst (reset_tail p h ov (with_self o2 sb)) = Return tt ->
      snd (reset_tail p h ov (with_self o1 sb))
      = snd (reset_tail p h ov (with_self o2 sb))).
Proof.
  intros Hv. unfold reset_tail.
  rewrite (discover_eq (resolve_profile p (environ (with_self o1 sb)))
             (with_home (stored_home h (with_self o1 sb)) (with_self o1 sb))
             (stored_home h (with_self o1 sb)) eq_refl).
  rewrite (discover_eq (resolve_profile p (environ (with_self o2 sb)))
             (with_home (stored_home h (with_self o2 sb)) (with_self o2 sb))
             (stored_home h (with_self o2 sb)) eq_refl).
  simpl.
  change (candidate_locations ?a ?b (with_home ?x (with_self ?o sb)))
    with (candidate_locations a b sb).
  change (stored_home h (with_self ?o sb)) with (stored_home h sb).
  destruct (_ && _)%bool; simpl; [done|].
  destruct (ini_env _ _ _) as [ini|e]; simpl; [|done].
  split; [done|]. intros _.
  unfold with_config, with_home, with_self. simpl. by rewrite Hv.
Qed.

(** X16.  [reset] does not look at what the object held before, nor at the
    previous logger level: from two states that differ only there it has
    the same outcome, and when it returns it leaves the same state, so no
    attribute of the earlier configuration survives. *)
Theorem reset_replaces_object
  (p h : option string) (ov : option (list (string * string)))
  (t : option string) (v : Z) (st : state) (o : RVConfig) (l : level) :
  let st2 := with_root_log_level l (with_self o st) in
  fst (reset V p h ov t v st2) = fst (reset V p h ov t v st)
  /\ (fst (reset V p h ov t v st) = Return tt ->
      snd (reset V p h ov t v st2) = snd (reset V p h ov t v st)).
Proof.
  simpl. rewrite !reset_eq.
  set (o1 := {| verbosity := Some v; rv_home := rv_home o;
                config := config o |}).
  set (o2 := {| verbosity := Some v; rv_home := rv_home (self st);
                config := config (self st) |}).
  set (sb := with_root_log_level (level_of_verbosity V v) st).
  change (after_level V v (with_root_log_level l (with_self o st)))
    with (with_self o1 sb).
  change (after_level V v st) with (with_self o2 sb).
  destruct t as [d|].
  - rewrite !set_tmp_dir_with_self.
    destruct (set_tmp_dir (Some d) sb) as [[[]|e] sx]; simpl; [|done].
    apply reset_tail_with_self. done.
  - apply reset_tail_with_self. done.
Qed.

End Further.

(** Concrete runs for the further properties. *)
Module FurtherRuns.

Import Examples.
#[local] Existing Instance Toy.platform.

Lemma load_conf_list_fallback_witness :
  let s := "a, b ,c" in
  Json.loads (PyStr.replace PyStr.single_quote PyStr.double_quote s) = None
  /\ exists items : list string,
       load_conf_list s = PyList (map PyStr items)
       /\ length items
          = S (length (List.filter (fun c => Ascii.eqb c ","%char)
                         (PyStr.chars s)))
       /\ Forall (fun item => ~ In ","%char (PyStr.chars item)) items.
Proof.
  intros s.
  assert (Hfail : Json.loads
                    (PyStr.replace PyStr.single_quote PyStr.double_quote s)
                  = None) by reflexivity.
  split; [exact Hfail|]. exact (load_conf_list_fallback s Hfail).
Defined.

Lemma load_conf_list_plain_witness :
  let c := "m"%char in
  let r := "od.a,mod.b" in
  plain_letter c = true
  /\ load_conf_list (String c r)
     = PyList (map (fun x => PyStr (PyStr.strip x))
                 (PyStr.split "," (String c r))).
Proof.
  intros c r.
  assert (Hc : plain_letter c = true) by reflexivity.
  split; [exact Hc|]. exact (load_conf_list_plain c r Hc).
Defined.

Lemma reset_failure_keeps_config_witness :
  let st := foo_bar_state in
  let e := Exception foo_not_found in
  let st' := snd (reset Toy.V (Some "foo") None None None 2 st) in
  reset Toy.V (Some "foo") None None None 2 st = (Raise e, st')
  /\ config (self st') = config (self st)
  /\ verbosity (self st') = Some 2%Z.
Proof.
  intros st e st'.
  assert (Hrun : reset Toy.V (Some "foo") None None None 2 st = (Raise e, st'))
    by (vm_compute; reflexivity).
  split; [exact Hrun|].
  exact (reset_failure_keeps_config Toy.V (Some "foo") None None None 2
           st st' e Hrun).
Defined.

Lemma reset_frame_witness :
  let st := Toy.start ∅ ∅ in
  let st' := snd (reset Toy.V (Some "foo") None None None 1 st) in
  (None : option string) = None
  /\ fs st' = fs st /\ tmp_dir st' = tmp_dir st /\ records st' = records st.
Proof.
  intros st st'. split; [reflexivity|].
  exact (proj2 (reset_frame Toy.V (Some "foo") None None None 1 st) eq_refl).
Defined.

Lemma discover_returns_witness :
  let st := snd (reset Toy.V (Some "work") None None None 1
                   (Toy.start three_files three_files_env)) in
  let home := "/home/user/.rastervision" in
  let locs := ["/etc/rv.ini"; "/work/.rastervision"] in
  rv_home (self st) = Some home
  /\ _discover_config_file_locations "work" st = (Return locs, st)
  /\ st = st
  /\ locs = List.filter (path_exists (fs st))
              (candidate_locations "work" home st)
  /\ Forall (fun l => path_exists (fs st) l = true) locs
  /\ ("work" <> DEFAULT_PROFILE -> locs <> []).
Proof.
  intros st home locs.
  assert (Hh : rv_home (self st) = Some home) by (vm_compute; reflexivity).
  assert (Hd : _discover_config_file_locations "work" st = (Return locs, st))
    by (vm_compute; reflexivity).
  split; [exact Hh|]. split; [exact Hd|].
  exact (discover_returns "work" home st st locs Hh Hd).
Defined.

Lemma discover_ignores_home_witness :
  let st1 := Toy.start ∅ {[ "RV_CONFIG_DIR" := "/cfg" ]} in
  let st2 := with_self {| verbosity := None; rv_home := Some "/elsewhere";
                          config := None |} st1 in
  truthy_opt (environ st1 !! "RV_CONFIG_DIR") = true
  /\ environ st1 = environ st2 /\ fs st1 = fs st2
  /\ fst (_discover_config_file_locations "default" st1)
     = fst (_discover_config_file_locations "default" st2).
Proof.
  intros st1 st2.
  assert (Hdir : truthy_opt (environ st1 !! "RV_CONFIG_DIR") = true)
    by (vm_compute; reflexivity).
  split_and!; [exact Hdir|reflexivity|reflexivity|].
  exact (discover_ignores_home "default" st1 st2 Hdir eq_refl eq_refl).
Defined.

Lemma set_tmp_dir_accepts_witness :
  let arg := Some "/a" in
  let st := Toy.start ∅ ∅ in
  let d := "/a" in
  let w1 := snd (touch (path_join d ".can_touch") (probe_world d st)) in
  let w2 := snd (makedirs d w1) in
  explicit_tmp_dir arg st = (Return d, st)
  /\ (path_exists (fs st) d = true \/ fst (makedirs d (fs st)) = None)
  /\ path_isdir (probe_world d st) d = true
  /\ touch (path_join d ".can_touch") (probe_world d st) = (None, w1)
  /\ makedirs d w1 = (None, w2)
  /\ exists st',
       set_tmp_dir arg st = (Return tt, st')
       /\ tmp_dir st' = Some d /\ fs st' = w2
       /\ records st' = records st
                        ++ [(DEBUG, "Temporary directory is: " +:+ d)].
Proof.
  intros arg st d w1 w2.
  assert (H1 : explicit_tmp_dir arg st = (Return d, st)) by reflexivity.
  assert (H2 : path_exists (fs st) d = true \/ fst (makedirs d (fs st)) = None)
    by (right; vm_compute; reflexivity).
  assert (H3 : path_isdir (probe_world d st) d = true)
    by (vm_compute; reflexivity).
  assert (H4 : touch (path_join d ".can_touch") (probe_world d st) = (None, w1))
    by (vm_compute; reflexivity).
  assert (H5 : makedirs d w1 = (None, w2)) by (vm_compute; reflexivity).
  split_and!; [exact H1|exact H2|exact H3|exact H4|exact H5|].
  exact (set_tmp_dir_accepts arg st st d w1 w2 H1 H2 H3 H4 H5).
Defined.


Lemma get_tmp_dir_root_returns_witness :
  let st := Toy.start ∅ {[ "TMPDIR" := "/scratch" ]} in
  let o := Some "/scratch" in
  let st' := snd (get_tmp_dir_root st) in
  get_tmp_dir_root st = (Return o, st')
  /\ exists d, o = Some d /\ tmp_dir st' = Some d
       /\ ((tmp_dir st = Some d /\ st' = st)
           \/ (tmp_dir st = None /\ path_isdir (fs st') d = true)).
Proof.
  intros st o st'.
  assert (Hrun : get_tmp_dir_root st = (Return o, st'))
    by (vm_compute; reflexivity).
  split; [exact Hrun|]. exact (get_tmp_dir_root_returns st st' o Hrun).
Defined.


Lemma get_config_dict_order_witness :
  let schema1 := [("FOO", ["bar"]); ("PLUGINS", ["modules"])] in
  let schema2 := [("PLUGINS", ["modules"]); ("FOO", ["bar"])] in
  let ov := [("FOO_bar", "1"); ("PLUGINS_modules", "m.a")] in
  let st := snd (reset Toy.V None None (Some ov) None 1 (Toy.start ∅ ∅)) in
  let envs := [dict_env ov; ConfigOSEnv; ConfigIniEnv None ∅] in
  let d : gmap string string :=
    <["PLUGINS_modules" := "m.a"]> (<["FOO_bar" := "1"]> ∅) in
  config (self st) = Some envs
  /\ schema_pairs schema1 ≡ₚ schema_pairs schema2
  /\ NoDup (dict_key <$> schema_pairs schema1)
  /\ get_config_dict schema1 st = (Return d, st)
  /\ get_config_dict schema2 st = (Return d, st).
Proof.
  intros schema1 schema2 ov st envs d.
  assert (Hc : config (self st) = Some envs) by (vm_compute; reflexivity).
  assert (Hperm : schema_pairs schema1 ≡ₚ schema_pairs schema2)
    by apply perm_swap.
  assert (Hnd : NoDup (dict_key <$> schema_pairs schema1)).
  { apply NoDup_cons. split; [|apply NoDup_singleton].
    intros Hin. apply list_elem_of_singleton in Hin. discriminate Hin. }
  assert (Hrun : get_config_dict schema1 st = (Return d, st))
    by (vm_compute; reflexivity).
  split_and!; [exact Hc|exact Hperm|exact Hnd|exact Hrun|].
  exact (get_config_dict_order schema1 schema2 st envs d
           Hc Hperm Hnd Hrun).
Defined.

Lemma override_reaches_config_dict_witness :
  let st := Toy.start three_files {[ "FOO_BAR" := "2" ]} in
  let st' := snd (reset Toy.V None None (Some [("FOO" +:+ "_" +:+ "bar", "1")])
                    None 1 st) in
  PyStr.truthy "FOO" = true
  /\ PyStr.startswith "bar" "root:" = false
  /\ reset Toy.V None None (Some [("FOO" +:+ "_" +:+ "bar", "1")]) None 1 st
     = (Return tt, st')
  /\ get_config_dict [("FOO", ["bar"])] st'
     = (Return {[ "FOO" +:+ "_" +:+ "bar" := "1" ]}, st').
Proof.
  intros st st'.
  assert (Hrun : reset Toy.V None None
                   (Some [("FOO" +:+ "_" +:+ "bar", "1")]) None 1 st
                 = (Return tt, st')) by (vm_compute; reflexivity).
  split_and!; [reflexivity|reflexivity|exact Hrun|].
  exact (override_reaches_config_dict Toy.V None None None 1 st st'
           "FOO" "bar" "1" eq_refl eq_refl Hrun).
Defined.

Lemma override_reaches_plugin_modules_witness :
  let st := Toy.start three_files {[ "PLUGINS_MODULES" := "other" ]} in
  let st' := snd (reset Toy.V None None (Some [("PLUGINS_modules", "m.a, m.b")])
                    None 1 st) in
  reset Toy.V None None (Some [("PLUGINS_modules", "m.a, m.b")]) None 1 st
  = (Return tt, st')
  /\ get_plugin_modules st'
     = (Return (if String.eqb "m.a, m.b" ""
                then PyList [] else load_conf_list "m.a, m.b"), st').
Proof.
  intros st st'.
  assert (Hrun : reset Toy.V None None
                   (Some [("PLUGINS_modules", "m.a, m.b")]) None 1 st
                 = (Return tt, st')) by (vm_compute; reflexivity).
  split; [exact Hrun|].
  exact (override_reaches_plugin_modules Toy.V None None None 1 st st'
           "m.a, m.b" Hrun).
Defined.

Lemma reset_replaces_object_witness :
  let st := Toy.start three_files three_files_env in
  let st2 := with_root_log_level DEBUG (with_self (self foo_bar_state) st) in
  fst (reset Toy.V None None None None 1 st) = Return tt
  /\ snd (reset Toy.V None None None None 1 st2)
     = snd (reset Toy.V None None None None 1 st).
Proof.
  intros st st2.
  assert (Hret : fst (reset Toy.V None None None None 1 st) = Return tt)
    by (vm_compute; reflexivity).
  split; [exact Hret|].
  exact (proj2 (reset_replaces_object Toy.V None None None None 1 st
                  (self foo_bar_state) DEBUG) Hret).
Defined.

End FurtherRuns.
